(** * Oxide: pending mutation tracker, SQL statement synthesizer and commit
    coordinator.

    The development follows the TypeScript sources:
    - the value codec of the data grid ([startEditing] and [commitEdit] of
      the [DataTable] component, [handleCopyAsSQL] of [RowContextMenu]);
    - the commit coordinator ([handleCommit] of [TabContentTable]);
    - the pending-changes panel ([PendingChanges]).
    The tracker hook [useTableMutations] is imported by these components
    but its file is not among the sources; its operations are modelled
    from the specification and marked as such. *)

From Stdlib Require Import ZArith Ascii String DecimalString DecimalZ DecimalPos.
From stdpp Require Import gmap strings list fin_maps sorting.

Local Open Scope string_scope.

(** ** JavaScript strings *)

(** [String.prototype.toLowerCase] on one code unit. Only the ASCII range
    matters for the comparisons the program makes (against ['null'] and
    ['true']): no character outside A-Z lowercases to one of their
    letters. *)
Definition lower_ascii (c : ascii) : ascii :=
  let n := nat_of_ascii c in
  if (65 <=? n)%nat && (n <=? 90)%nat then ascii_of_nat (n + 32) else c.

Fixpoint toLowerCase (s : string) : string :=
  match s with
  | EmptyString => EmptyString
  | String c r => String (lower_ascii c) (toLowerCase r)
  end.

(** [s.replace(/'/g, "''")]: every single quote is doubled. *)
Fixpoint doubleQuotes (s : string) : string :=
  match s with
  | EmptyString => EmptyString
  | String c r =>
      if Ascii.eqb c "'" then String "'" (String "'" (doubleQuotes r))
      else String c (doubleQuotes r)
  end.

(** [xs.join(sep)]. *)
Fixpoint join (sep : string) (xs : list string) : string :=
  match xs with
  | [] => ""
  | [x] => x
  | x :: rest => x +:+ sep +:+ join sep rest
  end.

(** Decimal text of an integer, as [String] prints a safe integer. *)
Definition Z_to_string (z : Z) : string := NilZero.string_of_int (Z.to_int z).

(** ** JavaScript numbers

    The program only parses numbers ([parseFloat]), prints them
    ([String]), tests them for truthiness ([x || 0]) and compares them.
    These are operations of the runtime, not of the repository, so the
    number type is an interface.  Its laws are the guarantees ECMAScript
    gives for them.  The two zeros are identified: [String], [===] and
    [||] do not tell them apart. *)
Class JsNumber (num : Type) := {
  num_eq_dec :: EqDecision num;
  num_zero : num;
  num_isNaN : num → bool;
  num_ofZ : Z → num;
  parseFloat : string → num;
  num_toString : num → string;
  num_zero_not_NaN : num_isNaN num_zero = false;
  num_toString_nonempty : ∀ n, num_toString n ≠ "";
  num_toString_not_null : ∀ n, toLowerCase (num_toString n) ≠ "null";
  parseFloat_toString :
    ∀ n, num_isNaN n = false → parseFloat (num_toString n) = n;
  parseFloat_toString_NaN :
    ∀ n, num_isNaN n = true → num_isNaN (parseFloat (num_toString n)) = true;
  num_toString_ofZ :
    ∀ z, (Z.abs z ≤ 2 ^ 53)%Z → num_toString (num_ofZ z) = Z_to_string z;
}.

(** A number is falsy when it is [NaN] or a zero. *)
Definition num_truthy `{JsNumber num} (n : num) : bool :=
  negb (num_isNaN n) && negb (bool_decide (n = num_zero)).

(** [n || 0]. *)
Definition or_zero `{JsNumber num} (n : num) : num :=
  if num_truthy n then n else num_zero.

(** ** Cell values: [null | string | number | boolean] *)

Inductive CellValue (num : Type) : Type :=
  | VNull
  | VStr (s : string)
  | VNum (n : num)
  | VBool (b : bool).
Arguments VNull {num}.
Arguments VStr {num} s.
Arguments VNum {num} n.
Arguments VBool {num} b.

Global Instance CellValue_eq_dec `{JsNumber num} : EqDecision (CellValue num).
Proof. solve_decision. Defined.

Section codec.
Context `{JsNumber num}.

(** [String(value)]. *)
Definition js_String (value : CellValue num) : string :=
  match value with
  | VNull => "null"
  | VStr s => s
  | VNum n => num_toString n
  | VBool b => if b then "true" else "false"
  end.

(** [startEditing]: the text put in the cell editor,
    [value === null ? '' : String(value)]. *)
Definition toEditText (value : CellValue num) : string :=
  match value with
  | VNull => ""
  | _ => js_String value
  end.

(** [commitEdit]: the edit text parsed back against the type of the
    original value of the cell. *)
Definition fromEditText (editValue : string) (originalValue : CellValue num)
    : CellValue num :=
  if String.eqb editValue "" || String.eqb (toLowerCase editValue) "null"
  then VNull
  else match originalValue with
       | VNum _ => VNum (or_zero (parseFloat editValue))
       | VBool _ => VBool (String.eqb (toLowerCase editValue) "true")
       | _ => VStr editValue
       end.

(** The specification's wording of [fromEditText] (section 4.1), to be
    compared with the code above: 0 stands in for a failed parse only. *)
Definition fromEditText_spec (text : string) (originalValue : CellValue num)
    : CellValue num :=
  if decide (text = "" ∨ toLowerCase text = "null") then VNull
  else match originalValue with
       | VNum _ =>
           VNum (if num_isNaN (parseFloat text) then num_zero
                 else parseFloat text)
       | VBool _ => VBool (bool_decide (toLowerCase text = "true"))
       | _ => VStr text
       end.

(** Modelled from the spec: [toSqlLiteral] of the hook [useTableMutations],
    which is not among the sources (section 4.1).  [handleCopyAsSQL] of
    [RowContextMenu], which is, builds the literal of a cell by the same
    rule: ['NULL'] for null, the text in single quotes with
    [replace(/'/g, "''")] for a string, [String(val)] otherwise. *)
Definition toSqlLiteral (val : CellValue num) : string :=
  match val with
  | VNull => "NULL"
  | VStr s => "'" +:+ doubleQuotes s +:+ "'"
  | _ => js_String val
  end.
End codec.

(** ** Changeset store (hook [useTableMutations]) *)

Record CellChange (num : Type) : Type := mkCellChange {
  columnIndex : nat;
  columnName : string;
  oldValue : CellValue num;
  newValue : CellValue num;
}.
Arguments mkCellChange {num}.
Arguments columnIndex {num}.
Arguments columnName {num}.
Arguments oldValue {num}.
Arguments newValue {num}.

(** One pending change of a row; [change.type] is ['insert'], ['update'] or
    ['delete'] in [getRowStyle] of the grid. *)
Inductive RowChange (num : Type) : Type :=
  | Insert (values : list (CellValue num))
  | Update (cellChanges : list (CellChange num))
  | Delete.
Arguments Insert {num}.
Arguments Update {num}.
Arguments Delete {num}.

Section changeset.
Context `{JsNumber num}.

Definition withNewValue (v : CellValue num) (e : CellChange num)
    : CellChange num :=
  mkCellChange (columnIndex e) (columnName e) (oldValue e) v.

(** Modelled from the spec: the entry of [cellChanges] for a column
    index, if there is one (section 4.2). *)
Definition findCell (idx : nat) (cc : list (CellChange num))
    : option (nat * CellChange num) :=
  list_find (λ e, columnIndex e = idx) cc.

(** Modelled from the spec: the create-or-extend step of [updateCell]
    (section 4.2), whose hook is not among the sources: an existing entry
    of the column gets the new value and keeps its original old value, a
    missing one is created. *)
Definition upsertCell (name : string) (idx : nat)
    (old new : CellValue num) (cc : list (CellChange num))
    : list (CellChange num) :=
  match findCell idx cc with
  | Some (i, e) => <[i := withNewValue new e]> cc
  | None => cc ++ [mkCellChange idx name old new]
  end.

(** Modelled from the spec: the exact-revert rule of [updateCell]
    (sections 3 and 4.2): an entry is removed the instant its new value
    equals its old value. *)
Definition dropReverted (idx : nat) (cc : list (CellChange num))
    : list (CellChange num) :=
  filter (λ e, ¬ (columnIndex e = idx ∧ newValue e = oldValue e)) cc.

(** Modelled from the spec: [insertRow] of the absent hook (section 4.2)
    creates an [Insert] entry at the row index. *)
Definition insertRow (rowIndex : nat) (values : list (CellValue num))
    (cs : gmap nat (RowChange num)) : gmap nat (RowChange num) :=
  <[rowIndex := Insert values]> cs.

(** Modelled from the spec: [updateCell] of the absent hook (section 4.2).
    An inserted row is edited in place, a row marked for deletion ignores
    the edit, any other row creates or extends its [Update] entry; the
    entry of the row is removed when no cell change is left. *)
Definition updateCell (rowIndex : nat) (name : string) (idx : nat)
    (old new : CellValue num) (cs : gmap nat (RowChange num))
    : gmap nat (RowChange num) :=
  match cs !! rowIndex with
  | Some (Insert values) => <[rowIndex := Insert (<[idx := new]> values)]> cs
  | Some Delete => cs
  | other =>
      let cc := match other with Some (Update cc) => cc | _ => [] end in
      match dropReverted idx (upsertCell name idx old new cc) with
      | [] => delete rowIndex cs
      | cc' => <[rowIndex := Update cc']> cs
      end
  end.

(** Modelled from the spec: [deleteRow] of the absent hook (section 4.2):
    a pending insert is cancelled, any other row is marked [Delete]. *)
Definition deleteRow (rowIndex : nat) (cs : gmap nat (RowChange num))
    : gmap nat (RowChange num) :=
  match cs !! rowIndex with
  | Some (Insert _) => delete rowIndex cs
  | _ => <[rowIndex := Delete]> cs
  end.

(** Modelled from the spec: [getRowState] of the absent hook is a
    read-only lookup. *)
Definition getRowState (rowIndex : nat) (cs : gmap nat (RowChange num))
    : option (RowChange num) :=
  cs !! rowIndex.

(** Modelled from the spec: [hasChanges] of the absent hook is true iff
    the changeset is non-empty. *)
Definition hasChanges (cs : gmap nat (RowChange num)) : bool :=
  negb (bool_decide (cs = ∅)).

(** Modelled from the spec: [revertAll] of the absent hook clears the
    changeset unconditionally. *)
Definition revertAll (cs : gmap nat (RowChange num))
    : gmap nat (RowChange num) :=
  ∅.

(** The old value an [updateCell] call on a cell compares against: the
    one recorded for the column if the row has such an entry, the one
    the call itself brings otherwise. *)
Definition recordedOldValue (rowIndex idx : nat) (old : CellValue num)
    (cs : gmap nat (RowChange num)) : CellValue num :=
  match cs !! rowIndex with
  | Some (Update cc) =>
      match findCell idx cc with
      | Some (_, e) => oldValue e
      | None => old
      end
  | _ => old
  end.

(** A row that is neither inserted nor deleted and has no change in
    another column: it is unchanged, or updated with a single cell change,
    of the given column. *)
Definition editedOnlyAt (rowIndex idx : nat) (cs : gmap nat (RowChange num))
    : Prop :=
  cs !! rowIndex = None
  ∨ ∃ e, cs !! rowIndex = Some (Update [e]) ∧ columnIndex e = idx.

(** A run of [updateCell] calls on one cell; each call brings its own
    column name, old value and new value. *)
Definition updateCellMany (rowIndex idx : nat)
    (calls : list (string * CellValue num * CellValue num))
    (cs : gmap nat (RowChange num)) : gmap nat (RowChange num) :=
  foldl (λ acc call, updateCell rowIndex call.1.1 idx call.1.2 call.2 acc)
        cs calls.
End changeset.

(** ** Statement synthesizer ([generateSQL] of [useTableMutations]) *)

Definition dquote : string := String (ascii_of_nat 34) EmptyString.

(** Modelled from the spec: column and table identifiers are always
    double-quoted (section 4.3), as [handleCopyAsSQL] quotes its columns. *)
Definition quoteIdent (name : string) : string := dquote +:+ name +:+ dquote.

(** Entries are ordered by their row index. *)
Definition byRowIndex {A : Type} (a b : nat * A) : Prop := (a.1 ≤ b.1)%nat.

Global Instance byRowIndex_dec {A : Type} : RelDecision (@byRowIndex A).
Proof. intros a b. unfold byRowIndex. apply _. Defined.

Section synthesizer.
Context `{JsNumber num}.

(** Modelled from the spec: the position of the key column among the
    columns, where the row holds its key value (section 4.3). *)
Definition columnPosition (col : string) (columnNames : list string)
    : option nat :=
  fst <$> list_find (λ c, c = col) columnNames.

(** Modelled from the spec: the value a snapshot row has for a column
    (section 4.3); a cell the row does not have reads as [null]. *)
Definition cellAt (row : list (CellValue num)) (i : nat) : CellValue num :=
  default VNull (row !! i).

(** Modelled from the spec: one conjunct of the full-row match,
    [IS NULL] standing for [= NULL]. *)
Definition columnEquals (col : string) (v : CellValue num) : string :=
  match v with
  | VNull => quoteIdent col +:+ " IS NULL"
  | _ => quoteIdent col +:+ " = " +:+ toSqlLiteral v
  end.

(** Modelled from the spec: the WHERE predicate of section 4.3, over the
    values the row has in the grid snapshot.  With a primary key it is
    the key column equated to the row's key value; without one it is the
    conjunction over every column. *)
Definition wherePredicate (columnNames : list string)
    (primaryKeyColumn : option string) (row : list (CellValue num))
    : string :=
  match primaryKeyColumn with
  | Some pk =>
      quoteIdent pk +:+ " = " +:+
      toSqlLiteral
        (default VNull (columnPosition pk columnNames ≫= λ i, row !! i))
  | None =>
      join " AND " (imap (λ i col, columnEquals col (cellAt row i)) columnNames)
  end.

(** Modelled from the spec: one item of the SET list, the quoted column
    with the literal of the entry's new value (section 4.3, scenario C). *)
Definition setClause (e : CellChange num) : string :=
  quoteIdent (columnName e) +:+ "=" +:+ toSqlLiteral (newValue e).

(** Modelled from the spec: the statement of one changeset entry
    (section 4.3). *)
Definition statementOf (tableName : string) (columnNames : list string)
    (primaryKeyColumn : option string) (row : list (CellValue num))
    (change : RowChange num) : string :=
  match change with
  | Insert values =>
      "INSERT INTO " +:+ quoteIdent tableName +:+
      " (" +:+ join ", " (quoteIdent <$> columnNames) +:+
      ") VALUES (" +:+ join ", " (toSqlLiteral <$> values) +:+ ");"
  | Update cellChanges =>
      "UPDATE " +:+ quoteIdent tableName +:+
      " SET " +:+ join ", " (setClause <$> cellChanges) +:+
      " WHERE " +:+ wherePredicate columnNames primaryKeyColumn row +:+ ";"
  | Delete =>
      "DELETE FROM " +:+ quoteIdent tableName +:+
      " WHERE " +:+ wherePredicate columnNames primaryKeyColumn row +:+ ";"
  end.

(** Modelled from the spec: the order in which [generateSQL] goes through
    the entries, by ascending row index (section 4.3). *)
Definition entriesAscending (cs : gmap nat (RowChange num))
    : list (nat * RowChange num) :=
  merge_sort byRowIndex (map_to_list cs).

(** Modelled from the spec: [generateSQL] of the absent hook
    (section 4.3), reading the changeset and the grid snapshot [data]:
    one statement per entry, by ascending row index. *)
Definition generateSQL (data : list (list (CellValue num)))
    (cs : gmap nat (RowChange num))
    (tableName : string) (columnNames : list string)
    (primaryKeyColumn : option string) : list string :=
  (λ entry, statementOf tableName columnNames primaryKeyColumn
              (default [] (data !! entry.1)) entry.2)
    <$> entriesAscending cs.
End synthesizer.

(** ** Commit coordinator ([handleCommit] of [TabContentTable]) *)

(** What [invoke] rejects with, by the cases the [catch] handler of
    [handleCommit] tells apart: a text; [null] or [undefined]; or some
    other value, with its [message] property and its [JSON.stringify]
    text.  The [message] is a text, or [None] when the value has none or
    a falsy one. *)
Inductive InvokeError : Type :=
  | ErrText (text : string)
  | ErrNullish
  | ErrObject (message : option string) (json : string).

Inductive InvokeResult : Type :=
  | Resolved
  | Rejected (err : InvokeError).

(** [typeof err === 'string' ? err : err.message || JSON.stringify(err)];
    a missing or empty [message] is falsy.  Reading [message] off [null]
    or [undefined] throws a [TypeError]: [None] is that throw, with no
    message computed. *)
Definition errorMessage (err : InvokeError) : option string :=
  match err with
  | ErrText text => Some text
  | ErrNullish => None
  | ErrObject (Some m) json => Some (if String.eqb m "" then json else m)
  | ErrObject None json => Some json
  end.

(** The state [handleCommit] reads and writes: the props and hooks of
    [TabContentTable], the history and refresh counter of the store, and
    the batches handed to [invoke('execute_mutations', ...)] so far. *)
Record TableView (num : Type) : Type := mkTableView {
  connectionId : string;
  mutations : gmap nat (RowChange num);
  loading : bool;
  commitError : option string;
  lastExecutedSql : option string;
  history : list string;
  refreshTrigger : nat;
  sentBatches : list (list string);
}.
Arguments mkTableView {num}.
Arguments connectionId {num}.
Arguments mutations {num}.
Arguments loading {num}.
Arguments commitError {num}.
Arguments lastExecutedSql {num}.
Arguments history {num}.
Arguments refreshTrigger {num}.
Arguments sentBatches {num}.

(** The local state of the [PendingChanges] panel. *)
Record PendingChangesState : Type := mkPendingChanges {
  expanded : bool;
  editedStatements : list string;
}.

Section coordinator.
Context `{JsNumber num}.

(** [handleCommit] up to its [await]: the guard, [setLoading(true)],
    [setCommitError(null)] and the batch handed to the backend.  [None]
    is the early [return]. *)
Definition handleCommit_begin (statements : list string)
    (tv : TableView num) : option (TableView num) :=
  if String.eqb (connectionId tv) "" || (length statements =? 0)%nat
  then None
  else Some (mkTableView (connectionId tv) (mutations tv) true None
               (lastExecutedSql tv) (history tv) (refreshTrigger tv)
               (sentBatches tv ++ [statements])).

(** [handleCommit] from the backend's answer on: the [try] body after the
    [await], the [catch] handler, and [finally].  When the argument of
    [setCommitError] throws inside the handler, the setter is not called
    and the commit error stays what it is; [finally] runs all the same. *)
Definition handleCommit_settle (statements : list string)
    (reply : InvokeResult) (tv : TableView num) : TableView num :=
  match reply with
  | Resolved =>
      mkTableView (connectionId tv) (revertAll (mutations tv)) false
        (commitError tv)
        (match last statements with
         | Some sql => Some sql
         | None => lastExecutedSql tv
         end)
        (history tv ++ statements) (S (refreshTrigger tv))
        (sentBatches tv)
  | Rejected err =>
      mkTableView (connectionId tv) (mutations tv) false
        (match errorMessage err with
         | Some message => Some message
         | None => commitError tv
         end)
        (lastExecutedSql tv) (history tv) (refreshTrigger tv)
        (sentBatches tv)
  end.

(** One run of [handleCommit] against the backend's answer. *)
Definition handleCommit (statements : list string) (reply : InvokeResult)
    (tv : TableView num) : TableView num :=
  match handleCommit_begin statements tv with
  | None => tv
  | Some tv1 => handleCommit_settle statements reply tv1
  end.

(** ** The pending-changes panel ([PendingChanges]) *)

(** [useState(initialStatements)] when the panel mounts. *)
Definition PendingChanges_mount (initialStatements : list string)
    : PendingChangesState :=
  mkPendingChanges true initialStatements.

(** The [useEffect] on [initialStatements]. *)
Definition syncStatements (initialStatements : list string)
    (pc : PendingChangesState) : PendingChangesState :=
  if bool_decide (length initialStatements ≠ length (editedStatements pc))
  then mkPendingChanges (expanded pc) initialStatements
  else pc.

(** [handleStatementChange]; the index comes from the rendered list, so it
    is in range. *)
Definition handleStatementChange (index : nat) (value : string)
    (pc : PendingChangesState) : PendingChangesState :=
  mkPendingChanges (expanded pc) (<[index := value]> (editedStatements pc)).

(** The Commit button: the panel renders nothing without statements, the
    button is [disabled] while committing, and a click passes the edited
    statements to [onCommit]. *)
Definition commitButton (initialStatements : list string)
    (isCommitting : bool) (pc : PendingChangesState)
    : option (list string) :=
  if (length initialStatements =? 0)%nat then None
  else if isCommitting then None
  else Some (editedStatements pc).

(** [fetchData] up to its [await]: [setLoading(true)]. *)
Definition fetchData_begin (tv : TableView num) : TableView num :=
  mkTableView (connectionId tv) (mutations tv) true (commitError tv)
    (lastExecutedSql tv) (history tv) (refreshTrigger tv) (sentBatches tv).

(** [fetchData] from the backend's answer on.  [logged] is the SELECT text
    put in the history when the rows arrived, [None] when they did not;
    [finally] clears the loading flag, the changeset and the commit
    error. *)
Definition fetchData_settle (logged : option string) (tv : TableView num)
    : TableView num :=
  mkTableView (connectionId tv) (revertAll (mutations tv)) false None
    (match logged with
     | Some sql => Some sql
     | None => lastExecutedSql tv
     end)
    (match logged with
     | Some sql => history tv ++ [sql]
     | None => history tv
     end)
    (refreshTrigger tv) (sentBatches tv).

(** A cell edit committed in the grid: [commitEdit] calls
    [mutations.updateCell]; the grid is rendered only while not loading. *)
Definition editCell (rowIndex : nat) (name : string) (idx : nat)
    (old new : CellValue num) (tv : TableView num) : TableView num :=
  if loading tv then tv
  else mkTableView (connectionId tv)
         (updateCell rowIndex name idx old new (mutations tv))
         (loading tv) (commitError tv) (lastExecutedSql tv) (history tv)
         (refreshTrigger tv) (sentBatches tv).

(** A click on Commit in the table view: the panel is rendered only when
    there are changes, with [isCommitting = loading] and
    [onCommit = handleCommit]. *)
Definition clickCommit (initialStatements : list string)
    (pc : PendingChangesState) (tv : TableView num) : TableView num :=
  if hasChanges (mutations tv) then
    match commitButton initialStatements (loading tv) pc with
    | Some statements =>
        match handleCommit_begin statements tv with
        | Some tv1 => tv1
        | None => tv
        end
    | None => tv
    end
  else tv.
End coordinator.

(** ** A reference instance of the number interface

    The integers together with [NaN] and the two infinities: the numbers
    whose text has neither a fraction nor an exponent.  The instance runs
    the scenarios, whose numbers are integers, and shows that the laws of
    the interface can be met; it reads the integer part of a text that has
    more than that. *)
Inductive IntNum : Type :=
  | INaN
  | IInf (negative : bool)
  | IFin (z : Z).

Global Instance IntNum_eq_dec : EqDecision IntNum.
Proof. solve_decision. Defined.

(** The longest prefix of decimal digits. *)
Fixpoint digitsPrefix (s : string) : Decimal.uint :=
  match s with
  | EmptyString => Decimal.Nil
  | String c r =>
      match uint_of_char c (Some (digitsPrefix r)) with
      | Some d => d
      | None => Decimal.Nil
      end
  end.

Definition isWhiteSpace (c : ascii) : bool :=
  let n := nat_of_ascii c in
  (n =? 32)%nat || ((9 <=? n)%nat && (n <=? 13)%nat).

Fixpoint trimStart (s : string) : string :=
  match s with
  | String c r => if isWhiteSpace c then trimStart r else s
  | EmptyString => EmptyString
  end.

Definition IntNum_parseBody (negative : bool) (body : string) : IntNum :=
  if String.prefix "Infinity" body then IInf negative
  else match digitsPrefix body with
       | Decimal.Nil => INaN
       | d => IFin (Z.of_int (if negative then Decimal.Neg d else Decimal.Pos d))
       end.

Definition IntNum_parseFloat (s : string) : IntNum :=
  match trimStart s with
  | String "-" body => IntNum_parseBody true body
  | String "+" body => IntNum_parseBody false body
  | body => IntNum_parseBody false body
  end.

Definition IntNum_toString (n : IntNum) : string :=
  match n with
  | INaN => "NaN"
  | IInf false => "Infinity"
  | IInf true => "-Infinity"
  | IFin z => Z_to_string z
  end.

Definition IntNum_isNaN (n : IntNum) : bool :=
  match n with INaN => true | _ => false end.

Definition isDigit (c : ascii) : bool :=
  let n := nat_of_ascii c in (48 <=? n)%nat && (n <=? 57)%nat.

(** * More of the code *)

(** ** Paging, sorting and adding rows ([TabContentTable]) *)

Module TabContentTable.

Inductive SortDirection : Type := ASC | DESC.

(** [SortConfig] of the store: the sorted column, [null] for none. *)
Record SortConfig : Type := mkSortConfig {
  column : option string;
  direction : SortDirection;
}.

(** The fields of the active tab the handlers read; a missing field is
    [undefined].  Offsets and page sizes are integer JavaScript numbers. *)
Record Tab : Type := mkTab {
  offset : option Z;
  pageSize : option Z;
  sortConfig : option SortConfig;
}.

Inductive PageDirection : Type := next | prev.

(** [x || d] on a number that may be missing. *)
Definition orElse (x : option Z) (d : Z) : Z :=
  match x with
  | Some z => if (z =? 0)%Z then d else z
  | None => d
  end.

(** Up to this size every integer is a JavaScript number, and sums and
    differences of such numbers that stay within it are exact. *)
Definition safeBound : Z := 2 ^ 53.

(** The JavaScript number that [+] and [-] answer for integer numbers
    whose exact result is [z]: [z] itself up to [safeBound]; beyond it the
    nearest number with 53 significant bits, a tie going to the one whose
    last bit is 0 (IEEE 754 round to nearest even).  A result past the
    largest finite number, which is [Infinity] in JavaScript, is out of
    this model. *)
Definition toNumber (z : Z) : Z :=
  let a := Z.abs z in
  if (a <=? safeBound)%Z then z
  else
    let ulp := (2 ^ (Z.log2 a - 52))%Z in
    let q := (a / ulp)%Z in
    let r := (a mod ulp)%Z in
    let q' :=
      if (2 * r <? ulp)%Z then q
      else if (ulp <? 2 * r)%Z then (q + 1)%Z
      else if Z.even q then q else (q + 1)%Z in
    (Z.sgn z * (q' * ulp))%Z.

(** [handlePageChange]: the offset handed to [updateTab], [None] when the
    handler returns without a call. *)
Definition handlePageChange (id : string) (activeTab : option Tab)
    (direction : PageDirection) : option Z :=
  if String.eqb id "" then None
  else match activeTab with
       | None => None
       | Some tab =>
           let currentOffset := orElse (offset tab) 0 in
           let size := orElse (pageSize tab) 100 in
           let newOffset :=
             match direction with
             | next => toNumber (currentOffset + size)
             | prev => Z.max 0 (toNumber (currentOffset - size))
             end in
           if (newOffset =? currentOffset)%Z then None else Some newOffset
       end.

(** [updateTab(id, { offset })] merges the new offset into the tab. *)
Definition turnPage (id : string) (direction : PageDirection) (tab : Tab)
    : Tab :=
  match handlePageChange id (Some tab) direction with
  | Some newOffset => mkTab (Some newOffset) (pageSize tab) (sortConfig tab)
  | None => tab
  end.

(** [handleSort]: the configuration handed to [setSortConfig], [None] when
    the handler returns without a call. *)
Definition handleSort (id : string) (activeTab : option Tab) (col : string)
    : option SortConfig :=
  if String.eqb id "" then None
  else
    let currentSort := activeTab ≫= sortConfig in
    if bool_decide ((currentSort ≫= column) = Some col) then
      match direction <$> currentSort with
      | Some ASC => Some (mkSortConfig (Some col) DESC)
      | _ => Some (mkSortConfig None ASC)
      end
    else Some (mkSortConfig (Some col) ASC).

(** [setSortConfig(id, config)] makes the configuration the tab's. *)
Definition clickHeader (id : string) (col : string) (tab : Tab) : Tab :=
  match handleSort id (Some tab) col with
  | Some config => mkTab (offset tab) (pageSize tab) (Some config)
  | None => tab
  end.


(** The offset and the page size [handlePageChange] works with. *)
Definition effectiveOffset (tab : Tab) : Z := orElse (offset tab) 0.
Definition effectivePageSize (tab : Tab) : Z := orElse (pageSize tab) 100.

(** The states a column header goes through. *)
Definition sortedBy (col : string) (dir : SortDirection) : option SortConfig :=
  Some (mkSortConfig (Some col) dir).
Definition sortCleared : option SortConfig := Some (mkSortConfig None ASC).

Section rows.
Context `{JsNumber num}.

(** The table data, its columns and the tracker of [TabContentTable]. *)
Record Grid : Type := mkGrid {
  tableData : list (list (CellValue num));
  tableColumns : list string;
  newRowCounter : nat;
  changes : gmap nat (RowChange num);
}.

(** [handleAddRow]: a row of nulls is appended to the table data and
    tracked as an insert at the index it gets. *)
Definition handleAddRow (g : Grid) : Grid :=
  if (length (tableColumns g) =? 0)%nat then g
  else
    let newRow := (λ _, VNull) <$> tableColumns g in
    mkGrid (tableData g ++ [newRow]) (tableColumns g) (S (newRowCounter g))
      (insertRow (length (tableData g)) newRow (changes g)).
End rows.
End TabContentTable.

(** ** The row context menu ([RowContextMenu]) *)

(** [s.replace(/q/g, 'qq')] for a one-character pattern [q]. *)
Fixpoint doubleEach (q : ascii) (s : string) : string :=
  match s with
  | EmptyString => EmptyString
  | String c r =>
      if Ascii.eqb c q then String q (String q (doubleEach q r))
      else String c (doubleEach q r)
  end.

Module RowContextMenu.
Section menu.
Context `{JsNumber num}.

(** The field of one cell in [handleCopyAsCSV]. *)
Definition csvValue (val : CellValue num) : string :=
  match val with
  | VNull => "NULL"
  | VStr s => dquote +:+ doubleEach (ascii_of_nat 34) s +:+ dquote
  | _ => js_String val
  end.

(** [handleCopyAsCSV]: the text put on the clipboard. *)
Definition handleCopyAsCSV (rowData : list (CellValue num)) : string :=
  join "," (csvValue <$> rowData).

(** [handleCopyAsSQL]: the text put on the clipboard; the literal of a
    cell is built as [toSqlLiteral] builds it. *)
Definition handleCopyAsSQL (rowData : list (CellValue num))
    (columnNames : list string) : string :=
  let values := join ", " (toSqlLiteral <$> rowData) in
  let columns := join ", " (quoteIdent <$> columnNames) in
  "INSERT INTO " +:+ quoteIdent "table_name" +:+
  " (" +:+ columns +:+ ") VALUES (" +:+ values +:+ ");".
End menu.
End RowContextMenu.

(** The JavaScript type of a cell value. *)
Inductive CellKind : Type := KNull | KString | KNumber | KBoolean.

Definition kindOf {num : Type} (v : CellValue num) : CellKind :=
  match v with
  | VNull => KNull
  | VStr _ => KString
  | VNum _ => KNumber
  | VBool _ => KBoolean
  end.

(** ** The data grid ([DataTable]) *)

(** [array[index] = value]: a write past the end grows the array, the
    places in between being holes. *)
Definition arraySet {A : Type} (index : nat) (value : A) (array : list (option A))
    : list (option A) :=
  if decide (index < length array) then <[index := Some value]> array
  else array ++ replicate (index - length array) None ++ [Some value].

Module DataTable.

(** [columnNames.forEach((col, idx) => map.set(col, idx))], from index
    [idx] on. *)
Fixpoint setIndices (idx : nat) (columnNames : list string)
    (map : gmap string nat) : gmap string nat :=
  match columnNames with
  | [] => map
  | col :: rest => setIndices (S idx) rest (<[col := idx]> map)
  end.

Definition columnIndexMap (columnNames : list string) : gmap string nat :=
  setIndices 0 columnNames ∅.

(** [columnNames.filter(col => !hiddenColumns.includes(col))]. *)
Definition visibleColumnNames (columnNames hiddenColumns : list string)
    : list string :=
  filter (λ col, col ∉ hiddenColumns) columnNames.

(** [columnIndexMap.get(name) ?? 0]. *)
Definition originalIndex (columnNames : list string) (name : string) : nat :=
  default 0 (columnIndexMap columnNames !! name).

Inductive Key : Type := Enter | Escape | Tab | OtherKey.

Section editing.
Context `{JsNumber num}.

(** One call of [mutations.updateCell]; a column name or an original value
    that the grid does not have is [undefined]. *)
Record UpdateCellCall : Type := mkCall {
  rowIndex : nat;
  columnName : option string;
  columnIndex : nat;
  originalValue : option (CellValue num);
  newValue : CellValue num;
}.

(** The editing state of the grid, its local copy of the data, and the
    calls made to the tracker so far.  A cell of the local data that was
    never written is [undefined]. *)
Record Editing : Type := mkEditing {
  editingCell : option (nat * nat);
  editValue : string;
  localData : list (list (option (CellValue num)));
  calls : list UpdateCellCall;
}.

(** [value === null ? '' : String(value)], also for [undefined]. *)
Definition editTextOf (value : option (CellValue num)) : string :=
  match value with
  | Some v => toEditText v
  | None => "undefined"
  end.

Definition startEditing (row col : nat) (value : option (CellValue num))
    (st : Editing) : Editing :=
  mkEditing (Some (row, col)) (editTextOf value) (localData st) (calls st).

Definition cancelEditing (st : Editing) : Editing :=
  mkEditing None "" (localData st) (calls st).

(** [localData[row]?.[col]]. *)
Definition cellOf (grid : list (list (option (CellValue num)))) (row col : nat)
    : option (CellValue num) :=
  grid !! row ≫= λ cells, mjoin (cells !! col).

(** The update of the local data in [commitEdit]. *)
Definition writeLocal (row col : nat) (value : CellValue num)
    (grid : list (list (option (CellValue num))))
    : list (list (option (CellValue num))) :=
  match grid !! row with
  | Some cells => <[row := arraySet col value cells]> grid
  | None => grid
  end.

(** [commitEdit]; an original value the data does not have is neither a
    number nor a boolean, so the text is kept as for a null cell. *)
Definition commitEdit (columnNames : list string)
    (data : list (list (CellValue num))) (st : Editing) : Editing :=
  match editingCell st with
  | None => st
  | Some (row, col) =>
      let original := data !! row ≫= λ cells, cells !! col in
      let value := fromEditText (editValue st) (default VNull original) in
      cancelEditing
        (mkEditing (editingCell st) (editValue st)
           (writeLocal row col value (localData st))
           (calls st ++ [mkCall row (columnNames !! col) col original value]))
  end.

(** [handleKeyDown] in the cell editor. *)
Definition handleKeyDown (columnNames : list string)
    (data : list (list (CellValue num))) (key : Key) (st : Editing)
    : Editing :=
  match key with
  | Enter => commitEdit columnNames data st
  | Escape => cancelEditing st
  | Tab =>
      let committed := commitEdit columnNames data st in
      match editingCell st with
      | Some (row, col) =>
          if decide (S col < length columnNames)
          then startEditing row (S col) (cellOf (localData st) row (S col))
                 committed
          else committed
      | None => committed
      end
  | OtherKey => st
  end.
End editing.
End DataTable.

(** ** The query tab ([TabContentQuery]) *)

Module TabContentQuery.
Local Open Scope nat_scope.
Local Open Scope list_scope.
Section query.
(** The rows of a result are not looked into; [trim] is
    [String.prototype.trim] of the runtime. *)
Context {Row : Type} (trim : string → string).

(** What [execute_query] resolves with, as far as [runQuery] reads it; a
    missing [columns] or [execution_time_ms] is falsy. *)
Record QueryResult : Type := mkQueryResult {
  columns : option (list string);
  rows : list Row;
  execution_time_ms : nat;
}.

(** The outcome of the [await]: the value resolved with ([null] is
    [None]), or the text [err.toString()] of what was thrown. *)
Inductive Reply : Type :=
  | Returned (result : option QueryResult)
  | Threw (text : string).

(** The state of the tab: its hooks, the generation counter
    [generationRef], whether the elapsed-time timer is set, the history of
    the store as (sql, time, rows), and the queries handed to
    [invoke('execute_query', ...)] so far. *)
Record State : Type := mkState {
  query : string;
  results : option (list string * list Row);
  loading : bool;
  error : option string;
  stats : option (nat * nat);
  generation : nat;
  timer : bool;
  history : list (string * nat * nat);
  sent : list string;
}.

(** [handleQueryChange]: [value || '']. *)
Definition handleQueryChange (value : option string) (st : State) : State :=
  mkState (default "" value) (results st) (loading st) (error st) (stats st)
    (generation st) (timer st) (history st) (sent st).

Definition stopQuery (st : State) : State :=
  mkState (query st) None false (Some "Query cancelled by user") None
    (S (generation st)) false (history st) (sent st).

(** [runQuery] up to its [await].  The query it sends carries the new
    value of the generation counter as [currentGen]. *)
Definition runQuery (st : State) : State :=
  if String.eqb (trim (query st)) "" then st
  else if loading st then stopQuery st
  else mkState (query st) (results st) true None (stats st)
         (S (generation st)) true (history st) (sent st ++ [query st]).

(** The [finally] of [runQuery] for the current generation. *)
Definition finish (st : State) : State :=
  mkState (query st) (results st) false (error st) (stats st)
    (generation st) false (history st) (sent st).

(** [runQuery] from the reply on, for the query sent with [currentGen] and
    text [sql]; [measured] is the rounded time since the start. *)
Definition settle (currentGen : nat) (sql : string) (measured : nat)
    (reply : Reply) (st : State) : State :=
  if decide (currentGen ≠ generation st) then st
  else match reply with
       | Returned (Some result) =>
           match columns result with
           | Some cols =>
               let time :=
                 if (execution_time_ms result =? 0)%nat then measured
                 else execution_time_ms result in
               finish
                 (mkState (query st) (Some (cols, rows result)) (loading st)
                    (error st) (Some (time, length (rows result)))
                    (generation st) (timer st)
                    (history st ++ [(sql, time, length (rows result))])
                    (sent st))
           | None => finish st
           end
       | Returned None => finish st
       | Threw text =>
           finish
             (mkState (query st) None (loading st) (Some text) None
                (generation st) (timer st) (history st) (sent st))
       end.

(** What can happen to the tab: a click on Run or Stop (both are
    [runQuery]), typing in the editor, a reply coming in. *)
Inductive Event : Type :=
  | Click
  | Typed (value : option string)
  | Arrived (currentGen : nat) (sql : string) (measured : nat) (reply : Reply).

Definition step (st : State) (e : Event) : State :=
  match e with
  | Click => runQuery st
  | Typed value => handleQueryChange value st
  | Arrived currentGen sql measured reply =>
      settle currentGen sql measured reply st
  end.
End query.
End TabContentQuery.

(** ** The paged query hook ([useQueryResult]) *)

Module useQueryResult.
Local Open Scope nat_scope.
Local Open Scope list_scope.

(** What [execute_query] resolves with, as far as [runQuery] reads it; a
    field the object does not have is [undefined]. *)
Module Result.
Record QueryResult (Row : Type) : Type := mkQueryResult {
  columns : option (list string);
  rows : option (list Row);
  execution_time_ms : option nat;
  total_count : option nat;
}.
Arguments mkQueryResult {Row}.
Arguments columns {Row}.
Arguments rows {Row}.
Arguments execution_time_ms {Row}.
Arguments total_count {Row}.
End Result.

(** [QueryStats] of the hook. *)
Module Stats.
Record QueryStats : Type := mkQueryStats {
  time : option nat;
  rows : nat;
  totalRows : option nat;
}.
End Stats.

Section hook.
Context {Row : Type}.

(** The outcome of the [await]: the object resolved with, or the text
    [err.toString()] of what was thrown; resolving with no object makes
    [result.columns] throw, which is the second case. *)
Inductive Reply : Type :=
  | Returned (result : Result.QueryResult Row)
  | Threw (text : string).

(** The state of the hook, with its two refs. *)
Record State : Type := mkState {
  rows : list Row;
  columns : list string;
  isLoading : bool;
  error : option string;
  stats : option Stats.QueryStats;
  page : nat;
  queryIdRef : option string;
  rowsBufferRef : list Row;
}.

(** [runQuery(sql, newPage)] up to its [await]; [queryId] is what
    [generateId] returned. *)
Definition runQuery_begin (newPage : nat) (queryId : string) (st : State)
    : State :=
  mkState (if (newPage =? 0) then [] else rows st) (columns st)
    true None (stats st) (page st) (Some queryId)
    (if (newPage =? 0) then [] else rowsBufferRef st).

(** [runQuery(sql, newPage)] from the reply on. *)
Definition runQuery_settle (newPage : nat) (reply : Reply) (st : State)
    : State :=
  match reply with
  | Returned result =>
      match Result.columns result with
      | Some cols =>
          let newRows := default [] (Result.rows result) in
          mkState
            (if (newPage =? 0) then newRows else rows st ++ newRows)
            cols false (error st)
            (Some (Stats.mkQueryStats (Result.execution_time_ms result)
                     (length newRows) (Result.total_count result)))
            newPage None (rowsBufferRef st)
      | None =>
          mkState (rows st) (columns st) false (error st) (stats st)
            (page st) None (rowsBufferRef st)
      end
  | Threw text =>
      mkState (rows st) (columns st) false (Some text) (stats st)
        (page st) None (rowsBufferRef st)
  end.

(** One page loaded: the call and its reply. *)
Definition loadPage (newPage : nat) (queryId : string) (reply : Reply)
    (st : State) : State :=
  runQuery_settle newPage reply (runQuery_begin newPage queryId st).

(** The pages [firstPage], [firstPage + 1], ... loaded one after the
    other, each call with its id and its reply. *)
Fixpoint loadPages (firstPage : nat) (replies : list (string * Reply))
    (st : State) : State :=
  match replies with
  | [] => st
  | (queryId, reply) :: rest =>
      loadPages (S firstPage) rest (loadPage firstPage queryId reply st)
  end.
(** The rows a reply brings: those of a result with columns. *)
Definition broughtRows (reply : Reply) : list Row :=
  match reply with
  | Returned result =>
      match Result.columns result with
      | Some _ => default [] (Result.rows result)
      | None => []
      end
  | Threw _ => []
  end.

End hook.
End useQueryResult.

(** * Properties *)

(** ** The integer numbers meet the number interface *)

Lemma digitsPrefix_uint_of_string (s : string) (d : Decimal.uint) :
  NilEmpty.uint_of_string s = Some d → digitsPrefix s = d.
Proof.
  revert d. induction s as [|c s IH];
    cbn [digitsPrefix NilEmpty.uint_of_string]; intros d Hd.
  - by injection Hd.
  - destruct (NilEmpty.uint_of_string s) as [d'|]; [|done].
    rewrite (IH d' eq_refl). by rewrite Hd.
Qed.

Lemma digitsPrefix_string_of_uint (d : Decimal.uint) :
  digitsPrefix (NilEmpty.string_of_uint d) = d.
Proof. apply digitsPrefix_uint_of_string, NilEmpty.usu. Qed.

Lemma string_of_uint_head (d : Decimal.uint) :
  d ≠ Decimal.Nil →
  ∃ c r, NilEmpty.string_of_uint d = String c r ∧ isDigit c = true.
Proof. destruct d; [done|..]; intros _; simpl; eauto. Qed.

Lemma parseFloat_digit_head (c : ascii) (r : string) :
  isDigit c = true →
  IntNum_parseFloat (String c r) = IntNum_parseBody false (String c r).
Proof.
  destruct c as [[|] [|] [|] [|] [|] [|] [|] [|]]; try discriminate;
    intros _; reflexivity.
Qed.

Lemma prefix_Infinity_digit_head (c : ascii) (r : string) :
  isDigit c = true → String.prefix "Infinity" (String c r) = false.
Proof.
  destruct c as [[|] [|] [|] [|] [|] [|] [|] [|]]; try discriminate;
    intros _; reflexivity.
Qed.

Lemma parseBody_digits (negative : bool) (d : Decimal.uint) :
  d ≠ Decimal.Nil →
  IntNum_parseBody negative (NilEmpty.string_of_uint d)
  = IFin (Z.of_int (if negative then Decimal.Neg d else Decimal.Pos d)).
Proof.
  intros Hd. destruct (string_of_uint_head d Hd) as (c & r & Hs & Hc).
  unfold IntNum_parseBody.
  rewrite Hs, (prefix_Infinity_digit_head c r Hc), <- Hs.
  rewrite digitsPrefix_string_of_uint. by destruct d.
Qed.

Lemma IntNum_parseFloat_toString (z : Z) :
  IntNum_parseFloat (Z_to_string z) = IFin z.
Proof.
  rewrite <- (DecimalZ.of_to z) at 2.
  unfold Z_to_string. destruct z as [|p|p]; [reflexivity|..]; simpl Z.to_int.
  - pose proof (Unsigned.to_uint_nonnil p) as Hp.
    simpl NilZero.string_of_int. unfold NilZero.string_of_uint.
    destruct (string_of_uint_head _ Hp) as (c & r & Hs & Hc).
    transitivity (IntNum_parseFloat (NilEmpty.string_of_uint (Pos.to_uint p))).
    { by destruct (Pos.to_uint p). }
    rewrite Hs, (parseFloat_digit_head c r Hc), <- Hs.
    by rewrite parseBody_digits.
  - pose proof (Unsigned.to_uint_nonnil p) as Hp.
    simpl NilZero.string_of_int. unfold NilZero.string_of_uint.
    transitivity (IntNum_parseBody true (NilEmpty.string_of_uint (Pos.to_uint p))).
    { by destruct (Pos.to_uint p). }
    by rewrite parseBody_digits.
Qed.

Lemma Z_to_string_head (z : Z) :
  ∃ c r, Z_to_string z = String c r ∧ (isDigit c = true ∨ c = "-"%char).
Proof.
  unfold Z_to_string. destruct z as [|p|p]; simpl Z.to_int.
  - exists "0"%char, "". split; [done|by left].
  - pose proof (Unsigned.to_uint_nonnil p) as Hp.
    destruct (string_of_uint_head _ Hp) as (c & r & Hs & Hc).
    exists c, r. split; [|by left].
    simpl. unfold NilZero.string_of_uint. rewrite <- Hs.
    by destruct (Pos.to_uint p).
  - eexists _, _. split; [reflexivity|by right].
Qed.

Lemma lower_ascii_head_not_n (c : ascii) :
  isDigit c = true ∨ c = "-"%char → lower_ascii c ≠ "n"%char.
Proof.
  intros [Hc| ->]; [|done].
  destruct c as [[|] [|] [|] [|] [|] [|] [|] [|]]; try discriminate; done.
Qed.

Lemma IntNum_toString_nonempty (n : IntNum) : IntNum_toString n ≠ "".
Proof.
  destruct n as [|[|]|z]; try done. simpl.
  destruct (Z_to_string_head z) as (c & r & -> & _). done.
Qed.

Lemma IntNum_toString_not_null (n : IntNum) :
  toLowerCase (IntNum_toString n) ≠ "null".
Proof.
  destruct n as [|[|]|z]; try done. simpl.
  destruct (Z_to_string_head z) as (c & r & -> & Hc). simpl.
  intros [= Hn _]. by apply (lower_ascii_head_not_n c).
Qed.

Lemma IntNum_parseFloat_num_toString (n : IntNum) :
  IntNum_isNaN n = false → IntNum_parseFloat (IntNum_toString n) = n.
Proof.
  destruct n as [|[|]|z]; try done. intros _. apply IntNum_parseFloat_toString.
Qed.

Lemma IntNum_parseFloat_NaN (n : IntNum) :
  IntNum_isNaN n = true →
  IntNum_isNaN (IntNum_parseFloat (IntNum_toString n)) = true.
Proof. by destruct n as [|[|]|z]. Qed.

Global Instance IntNum_JsNumber : JsNumber IntNum := {|
  num_zero := IFin 0;
  num_isNaN := IntNum_isNaN;
  num_ofZ := IFin;
  parseFloat := IntNum_parseFloat;
  num_toString := IntNum_toString;
  num_zero_not_NaN := eq_refl;
  num_toString_nonempty := IntNum_toString_nonempty;
  num_toString_not_null := IntNum_toString_not_null;
  parseFloat_toString := IntNum_parseFloat_num_toString;
  parseFloat_toString_NaN := IntNum_parseFloat_NaN;
  num_toString_ofZ := λ z _, eq_refl;
|}.

(** ** Value codec *)

Section codec_facts.
Context `{JsNumber num}.

Lemma or_zero_NaN_only (n : num) :
  or_zero n = if num_isNaN n then num_zero else n.
Proof.
  unfold or_zero, num_truthy.
  destruct (num_isNaN n); [done|]. simpl.
  case_bool_decide; by subst.
Qed.

Lemma editNull_decide (text : string) :
  String.eqb text "" || String.eqb (toLowerCase text) "null"
  = bool_decide (text = "" ∨ toLowerCase text = "null").
Proof.
  destruct (String.eqb_spec text "") as [->|Hne]; [done|].
  destruct (String.eqb_spec (toLowerCase text) "null") as [Heq|Hnn]; simpl.
  - symmetry. apply bool_decide_eq_true. by right.
  - symmetry. apply bool_decide_eq_false. by intros [?|?].
Qed.

(** C5: [fromEditText] computes what the specification says: null for the
    empty text and for any casing of the word null; for an originally
    numeric cell the float parse of the text, with 0 when the parse fails;
    for an originally boolean cell whether the text is, in any casing, the
    word true; the text itself otherwise. *)
Theorem fromEditText_meets_spec (text : string) (originalValue : CellValue num) :
  fromEditText text originalValue = fromEditText_spec text originalValue.
Proof.
  unfold fromEditText, fromEditText_spec.
  rewrite editNull_decide. case_bool_decide as Hnull.
  - by rewrite decide_True.
  - rewrite decide_False by done.
    destruct originalValue as [|s|n|b]; try done.
    + by rewrite or_zero_NaN_only.
    + f_equal. destruct (String.eqb_spec (toLowerCase text) "true").
      * by rewrite bool_decide_eq_true_2.
      * by rewrite bool_decide_eq_false_2.
Qed.

Lemma fromEditText_number_text (n o : num) :
  fromEditText (num_toString n) (VNum o)
  = VNum (or_zero (parseFloat (num_toString n))).
Proof.
  unfold fromEditText. rewrite editNull_decide.
  rewrite bool_decide_eq_false_2; [done|].
  intros [Hempty|Hnull].
  - by apply (num_toString_nonempty n).
  - by apply (num_toString_not_null n).
Qed.

(** C8 (amended): the round trip through the cell editor gives back null
    for null; for a string it gives back the string unless the string is
    empty or, in any casing, the word null, in which case it gives null;
    for a number it gives back the number exactly when its edit text is a
    valid float literal, that is when [parseFloat] does not answer NaN. *)
Theorem editText_roundtrip :
  fromEditText (toEditText (@VNull num)) VNull = VNull
  ∧ (∀ s : string,
       fromEditText (toEditText (@VStr num s)) (VStr s)
       = if decide (s = "" ∨ toLowerCase s = "null") then VNull else VStr s)
  ∧ (∀ n : num,
       fromEditText (toEditText (VNum n)) (VNum n) = VNum n
       ↔ num_isNaN (parseFloat (toEditText (VNum n))) = false).
Proof.
  split; [done|]. split.
  - intros s. unfold fromEditText. simpl toEditText.
    rewrite editNull_decide. case_bool_decide.
    + by rewrite decide_True.
    + by rewrite decide_False.
  - intros n. simpl. rewrite fromEditText_number_text, or_zero_NaN_only.
    destruct (num_isNaN n) eqn:Hn.
    + rewrite (parseFloat_toString_NaN n Hn). split; [|done].
      intros [= <-]. by rewrite num_zero_not_NaN in Hn.
    + rewrite (parseFloat_toString n Hn), Hn. done.
Qed.
End codec_facts.

(** ** Changeset store *)

Section changeset_facts.
Context `{JsNumber num}.
Implicit Types cs : gmap nat (RowChange num).

(** The cell changes of a fresh or once-edited row after one more edit of
    the same column. *)
Lemma cellChanges_fresh (name : string) (idx : nat) (old new : CellValue num) :
  dropReverted idx (upsertCell name idx old new [])
  = if decide (new = old) then [] else [mkCellChange idx name old new].
Proof.
  unfold upsertCell, dropReverted, findCell. simpl.
  rewrite filter_cons, filter_nil. simpl.
  destruct (decide (new = old)) as [->|Hne].
  - rewrite decide_False; [done|]. intros Hn. by apply Hn.
  - rewrite decide_True; [done|]. by intros [_ ?].
Qed.

Lemma cellChanges_again (name : string) (old new : CellValue num)
    (e : CellChange num) :
  dropReverted (columnIndex e) (upsertCell name (columnIndex e) old new [e])
  = if decide (new = oldValue e) then [] else [withNewValue new e].
Proof.
  unfold upsertCell, dropReverted, findCell. simpl.
  rewrite decide_True by done. simpl.
  rewrite filter_cons, filter_nil. simpl.
  destruct (decide (new = oldValue e)) as [->|Hne].
  - rewrite decide_False; [done|]. intros Hn. by apply Hn.
  - rewrite decide_True; [done|]. by intros [_ ?].
Qed.

(** [updateCell] touches the entry of its own row only. *)
Lemma updateCell_other_row (r r' : nat) (name : string) (idx : nat)
    (old new : CellValue num) cs :
  r ≠ r' → updateCell r name idx old new cs !! r' = cs !! r'.
Proof.
  intros Hne. unfold updateCell.
  destruct (cs !! r) as [[values|cc|]|] eqn:Hr; try done.
  - by rewrite lookup_insert_ne.
  - destruct (dropReverted _ _);
      [by rewrite lookup_delete_ne|by rewrite lookup_insert_ne].
  - destruct (dropReverted _ _);
      [by rewrite lookup_delete_ne|by rewrite lookup_insert_ne].
Qed.

Lemma updateCell_one_cell (r : nat) (name : string) (idx : nat)
    (old new : CellValue num) cs :
  editedOnlyAt r idx cs →
  updateCell r name idx old new cs !! r
  = if decide (new = recordedOldValue r idx old cs) then None
    else Some (Update
           [mkCellChange idx
              (match cs !! r with
               | Some (Update [e]) => columnName e
               | _ => name
               end)
              (recordedOldValue r idx old cs) new]).
Proof.
  unfold updateCell, recordedOldValue.
  intros [Hr|(e & Hr & <-)]; rewrite Hr.
  - rewrite cellChanges_fresh. destruct (decide (new = old)).
    + apply lookup_delete_eq.
    + by rewrite lookup_insert_eq.
  - rewrite cellChanges_again. unfold findCell. simpl.
    destruct (decide (columnIndex e = columnIndex e)); [simpl|done].
    destruct (decide (new = oldValue e)).
    + apply lookup_delete_eq.
    + by rewrite lookup_insert_eq.
Qed.

Lemma updateCell_editedOnlyAt (r : nat) (name : string) (idx : nat)
    (old new : CellValue num) cs :
  editedOnlyAt r idx cs → editedOnlyAt r idx (updateCell r name idx old new cs).
Proof.
  intros Hcs. unfold editedOnlyAt at 1.
  rewrite (updateCell_one_cell _ _ _ _ _ _ Hcs).
  destruct (decide _); [by left|right]. eauto.
Qed.

Lemma updateCellMany_editedOnlyAt (r idx : nat)
    (calls : list (string * CellValue num * CellValue num)) cs :
  editedOnlyAt r idx cs → editedOnlyAt r idx (updateCellMany r idx calls cs).
Proof.
  unfold updateCellMany. revert cs.
  induction calls as [|call calls IH]; intros cs Hcs; simpl; [done|].
  by apply IH, updateCell_editedOnlyAt.
Qed.

Lemma updateCellMany_other_row (r r' idx : nat)
    (calls : list (string * CellValue num * CellValue num)) cs :
  r ≠ r' → updateCellMany r idx calls cs !! r' = cs !! r'.
Proof.
  intros Hne. unfold updateCellMany. revert cs.
  induction calls as [|call calls IH]; intros cs; simpl; [done|].
  by rewrite IH, updateCell_other_row.
Qed.

(** C2 (amended): on a row that is neither inserted nor deleted and has
    no change in another column, any run of [updateCell] calls on one cell whose last
    call brings back the recorded old value leaves the changeset without
    an entry for the row; the other rows are as before the run, and
    [hasChanges] is false when no other row has a change. *)
Theorem updateCell_coalesces_to_empty (r idx : nat)
    (calls : list (string * CellValue num * CellValue num))
    (name : string) (old new : CellValue num) cs :
  editedOnlyAt r idx cs →
  new = recordedOldValue r idx old (updateCellMany r idx calls cs) →
  getRowState r (updateCell r name idx old new (updateCellMany r idx calls cs))
  = None
  ∧ updateCell r name idx old new (updateCellMany r idx calls cs)
    = delete r cs
  ∧ ((∀ r', r' ≠ r → cs !! r' = None) →
     hasChanges (updateCell r name idx old new (updateCellMany r idx calls cs))
     = false).
Proof.
  intros Hr Hnew.
  assert (updateCell r name idx old new (updateCellMany r idx calls cs) !! r
          = None) as Hgone.
  { rewrite updateCell_one_cell by (by apply updateCellMany_editedOnlyAt).
    by rewrite decide_True. }
  assert (updateCell r name idx old new (updateCellMany r idx calls cs)
          = delete r cs) as Hsame.
  { apply map_eq. intros r'. destruct (decide (r = r')) as [<-|Hne].
    - by rewrite Hgone, lookup_delete_eq.
    - rewrite updateCell_other_row, updateCellMany_other_row by done.
      by rewrite lookup_delete_ne. }
  split; [done|]. split; [done|].
  intros Hothers. rewrite Hsame. unfold hasChanges.
  rewrite bool_decide_eq_true_2; [done|].
  apply map_eq. intros r'. rewrite lookup_empty.
  destruct (decide (r' = r)) as [->|Hne].
  - apply lookup_delete_eq.
  - rewrite lookup_delete_ne by done. auto.
Qed.

(** C3: [insertRow] followed by [deleteRow] on the same index leaves no
    entry for the row: the pending insert is removed, no [Delete] is
    recorded, and an empty changeset is empty again. *)
Theorem insertRow_deleteRow_cancel (r : nat) (values : list (CellValue num)) cs :
  getRowState r (deleteRow r (insertRow r values cs)) = None
  ∧ deleteRow r (insertRow r values cs) = delete r cs
  ∧ deleteRow r (insertRow r values ∅) = ∅.
Proof.
  assert (∀ cs', deleteRow r (insertRow r values cs') = delete r cs') as Hdel.
  { intros cs'. unfold deleteRow, insertRow.
    rewrite lookup_insert_eq. by rewrite delete_insert_eq. }
  rewrite !Hdel. split; [apply lookup_delete_eq|]. split; [done|].
  apply delete_empty.
Qed.
End changeset_facts.

(** ** Statement synthesizer *)

Global Instance byRowIndex_total {A : Type} : Total (@byRowIndex A).
Proof. intros a b. unfold byRowIndex. lia. Qed.

Global Instance byRowIndex_trans {A : Type} : Transitive (@byRowIndex A).
Proof. intros a b c. unfold byRowIndex. lia. Qed.

(** Rows in weak ascending order with pairwise distinct indices are in
    strict ascending order. *)
Lemma StronglySorted_strict {A : Type} (l : list (nat * A)) :
  StronglySorted byRowIndex l → NoDup l.*1 →
  StronglySorted (λ a b, a.1 < b.1) l.
Proof.
  induction 1 as [|a l Hl IH Ha]; intros Hnd; [constructor|].
  rewrite fmap_cons in Hnd. apply NoDup_cons in Hnd as [Hnotin Hnd].
  constructor; [by apply IH|].
  apply Forall_forall. intros b Hb.
  rewrite Forall_forall in Ha. specialize (Ha b Hb). unfold byRowIndex in Ha.
  destruct (decide (a.1 = b.1)) as [Heq|Hne]; [|lia].
  exfalso. apply Hnotin. rewrite Heq. apply list_elem_of_fmap. eauto.
Qed.

Section synthesizer_facts.
Context `{JsNumber num}.
Implicit Types cs : gmap nat (RowChange num).

Lemma entriesAscending_Permutation cs : entriesAscending cs ≡ₚ map_to_list cs.
Proof. apply merge_sort_Permutation. Qed.

Lemma entriesAscending_strict cs :
  StronglySorted (λ a b, a.1 < b.1) (entriesAscending cs).
Proof.
  apply StronglySorted_strict.
  - apply StronglySorted_merge_sort; apply _.
  - rewrite entriesAscending_Permutation. apply NoDup_fst_map_to_list.
Qed.

Lemma entriesAscending_singleton (r : nat) (change : RowChange num) :
  entriesAscending {[r := change]} = [(r, change)].
Proof. unfold entriesAscending. by rewrite map_to_list_singleton. Qed.

Lemma generateSQL_entry (data : list (list (CellValue num))) cs
    (tableName : string) (columnNames : list string)
    (primaryKeyColumn : option string) (r : nat) (change : RowChange num) :
  cs !! r = Some change →
  statementOf tableName columnNames primaryKeyColumn
    (default [] (data !! r)) change
  ∈ generateSQL data cs tableName columnNames primaryKeyColumn.
Proof.
  intros Hr. unfold generateSQL. apply list_elem_of_fmap.
  exists (r, change). split; [done|].
  rewrite entriesAscending_Permutation. by apply elem_of_map_to_list.
Qed.

Lemma toSqlLiteral_all_null (values : list (CellValue num)) :
  Forall (λ v, v = VNull) values →
  toSqlLiteral <$> values = replicate (length values) "NULL".
Proof. induction 1 as [|v values -> _ IH]; simpl; by f_equal. Qed.

(** C4: [generateSQL] returns as many statements as the changeset has
    entries, the statement at each position being that of the entry at
    the same position when the entries are put in strictly ascending order
    of row index; an [Insert] entry whose values are all null has its
    statement in the output like any other. *)
Theorem generateSQL_one_statement_per_entry
    (data : list (list (CellValue num))) cs
    (tableName : string) (columnNames : list string)
    (primaryKeyColumn : option string) :
  length (generateSQL data cs tableName columnNames primaryKeyColumn) = size cs
  ∧ entriesAscending cs ≡ₚ map_to_list cs
  ∧ StronglySorted (λ a b, a.1 < b.1) (entriesAscending cs)
  ∧ (∀ i : nat,
       generateSQL data cs tableName columnNames primaryKeyColumn !! i
       = (λ entry, statementOf tableName columnNames primaryKeyColumn
                     (default [] (data !! entry.1)) entry.2)
           <$> entriesAscending cs !! i)
  ∧ (∀ (r : nat) (values : list (CellValue num)),
       cs !! r = Some (Insert values) →
       Forall (λ v, v = VNull) values →
       "INSERT INTO " +:+ quoteIdent tableName +:+
       " (" +:+ join ", " (quoteIdent <$> columnNames) +:+
       ") VALUES (" +:+ join ", " (replicate (length values) "NULL") +:+ ");"
       ∈ generateSQL data cs tableName columnNames primaryKeyColumn).
Proof.
  split; [|split; [|split; [|split]]].
  - unfold generateSQL.
    by rewrite length_fmap, entriesAscending_Permutation, length_map_to_list.
  - apply entriesAscending_Permutation.
  - apply entriesAscending_strict.
  - intros i. unfold generateSQL. apply list_lookup_fmap.
  - intros r values Hr Hnull.
    rewrite <- (toSqlLiteral_all_null values Hnull).
    apply (generateSQL_entry data cs tableName columnNames primaryKeyColumn
             r (Insert values) Hr).
Qed.

Lemma doubleQuotes_flat_map (s : string) :
  doubleQuotes s
  = string_of_list_ascii
      (flat_map (λ c, if Ascii.eqb c "'" then ["'"; "'"]%char else [c])
         (list_ascii_of_string s)).
Proof.
  induction s as [|c s IH]; simpl; [done|].
  destruct (Ascii.eqb c "'"); simpl; by rewrite IH.
Qed.

Lemma safe_integer_text (z : Z) :
  (Z.abs z ≤ 2 ^ 53)%Z → toSqlLiteral (VNum (num_ofZ z)) = Z_to_string z.
Proof. intros Hz. simpl. by apply num_toString_ofZ. Qed.

Lemma generateSQL_singleton (data : list (list (CellValue num)))
    (tableName : string) (columnNames : list string)
    (primaryKeyColumn : option string) (r : nat) (change : RowChange num) :
  generateSQL data {[r := change]} tableName columnNames primaryKeyColumn
  = [statementOf tableName columnNames primaryKeyColumn
       (default [] (data !! r)) change].
Proof. unfold generateSQL. by rewrite entriesAscending_singleton. Qed.

(** C6: [toSqlLiteral] gives NULL for null, the single-quoted text with
    every single quote doubled for a string, and the plain text of a
    number or boolean; so inserting [null, "Alice", 28] gives
    VALUES (NULL, 'Alice', 28) (scenario B) and setting name to O'Brien on
    the row whose key is 5 gives "name"='O''Brien' (scenario C). *)
Theorem toSqlLiteral_rules :
  toSqlLiteral (@VNull num) = "NULL"
  ∧ (∀ s : string,
       toSqlLiteral (@VStr num s)
       = "'" +:+
         string_of_list_ascii
           (flat_map (λ c, if Ascii.eqb c "'" then ["'"; "'"]%char else [c])
              (list_ascii_of_string s)) +:+ "'")
  ∧ (∀ n : num, toSqlLiteral (VNum n) = num_toString n)
  ∧ (∀ b : bool, toSqlLiteral (@VBool num b) = if b then "true" else "false")
  ∧ generateSQL []
      (insertRow 0 [VNull; VStr "Alice"; VNum (num_ofZ 28)] ∅)
      "users" ["id"; "name"; "age"] (Some "id")
    = ["INSERT INTO " +:+ dquote +:+ "users" +:+ dquote +:+
       " (" +:+ dquote +:+ "id" +:+ dquote +:+
       ", " +:+ dquote +:+ "name" +:+ dquote +:+
       ", " +:+ dquote +:+ "age" +:+ dquote +:+
       ") VALUES (NULL, 'Alice', 28);"]
  ∧ generateSQL [[VNum (num_ofZ 5); VStr "Bob"; VNum (num_ofZ 40)]]
      (updateCell 0 "name" 1 (VStr "Bob") (VStr "O'Brien") ∅)
      "users" ["id"; "name"; "age"] (Some "id")
    = ["UPDATE " +:+ dquote +:+ "users" +:+ dquote +:+
       " SET " +:+ dquote +:+ "name" +:+ dquote +:+ "='O''Brien'" +:+
       " WHERE " +:+ dquote +:+ "id" +:+ dquote +:+ " = 5;"].
Proof.
  split; [done|]. split; [|split; [done|split; [by intros []|split]]].
  - intros s. simpl. by rewrite doubleQuotes_flat_map.
  - unfold insertRow. rewrite insert_empty, generateSQL_singleton.
    unfold statementOf. rewrite !fmap_cons, safe_integer_text by done.
    reflexivity.
  - unfold updateCell. rewrite lookup_empty, cellChanges_fresh.
    rewrite decide_False by done.
    rewrite insert_empty, generateSQL_singleton.
    unfold statementOf, wherePredicate. simpl default.
    rewrite safe_integer_text by done. reflexivity.
Qed.

End synthesizer_facts.

(** ** Commit coordinator and pending-changes panel *)

Section coordinator_facts.
Context `{JsNumber num}.

Lemma handleCommit_begin_Some (statements : list string) (tv : TableView num) :
  connectionId tv ≠ "" → statements ≠ [] →
  handleCommit_begin statements tv
  = Some (mkTableView (connectionId tv) (mutations tv) true None
            (lastExecutedSql tv) (history tv) (refreshTrigger tv)
            (sentBatches tv ++ [statements])%list).
Proof.
  intros Hc Hs. unfold handleCommit_begin.
  destruct (String.eqb_spec (connectionId tv) "") as [?|_]; [done|].
  by destruct statements.
Qed.

(** C1: a commit attempt that reaches the backend (a connection and at
    least one statement) hands it the batch once.  When the backend accepts,
    the changeset is what [revertAll] leaves, which is empty.  When it
    rejects, whatever the rejection, the changeset is the one before the
    attempt and [loading] is cleared.  The commit error then holds: a text
    rejection as it is; for another value its [message] when that is a
    non-empty text, and else its JSON text, not taken apart.  The claim
    fails at a [null] or [undefined] rejection: the handler throws while
    computing the message, and the commit error stays the [null] set when
    the attempt began. *)
Theorem handleCommit_outcome (statements : list string) (tv : TableView num) :
  connectionId tv ≠ "" → statements ≠ [] →
  (mutations (handleCommit statements Resolved tv) = revertAll (mutations tv)
   ∧ hasChanges (mutations (handleCommit statements Resolved tv)) = false
   ∧ sentBatches (handleCommit statements Resolved tv)
     = (sentBatches tv ++ [statements])%list)
  ∧ (∀ err : InvokeError,
       mutations (handleCommit statements (Rejected err) tv) = mutations tv
       ∧ loading (handleCommit statements (Rejected err) tv) = false
       ∧ sentBatches (handleCommit statements (Rejected err) tv)
         = (sentBatches tv ++ [statements])%list)
  ∧ (∀ text : string,
       commitError (handleCommit statements (Rejected (ErrText text)) tv)
       = Some text)
  ∧ (∀ message json : string,
       message ≠ "" →
       commitError
         (handleCommit statements (Rejected (ErrObject (Some message) json)) tv)
       = Some message)
  ∧ (∀ json : string,
       commitError
         (handleCommit statements (Rejected (ErrObject None json)) tv)
       = Some json
       ∧ commitError
           (handleCommit statements (Rejected (ErrObject (Some "") json)) tv)
         = Some json)
  ∧ commitError (handleCommit statements (Rejected ErrNullish) tv) = None.
Proof.
  intros Hc Hs. unfold handleCommit.
  rewrite (handleCommit_begin_Some statements tv Hc Hs).
  split; [done|]. split; [done|]. split; [done|]. split; [|done].
  intros message json Hm. simpl.
  by destruct (String.eqb_spec message "").
Qed.

(** C9 (amended): while [loading] is set, as it is from the moment a
    commit attempt begins, the Commit button is disabled: a click on it
    runs no handler, so the whole view state, with its changeset and the
    batches sent to the backend, is what it was.  [handleCommit] itself
    does not look at the flag: invoked then, with a connection and a
    statement, it hands its batch to the backend. *)
Theorem clickCommit_while_committing (initialStatements : list string)
    (pc : PendingChangesState) (tv : TableView num) :
  loading tv = true →
  clickCommit initialStatements pc tv = tv
  ∧ mutations (clickCommit initialStatements pc tv) = mutations tv
  ∧ sentBatches (clickCommit initialStatements pc tv) = sentBatches tv
  ∧ (∀ statements : list string,
       connectionId tv ≠ "" → statements ≠ [] →
       sentBatches <$> handleCommit_begin statements tv
       = Some (sentBatches tv ++ [statements])%list).
Proof.
  intros Hl.
  assert (clickCommit initialStatements pc tv = tv) as ->.
  { unfold clickCommit, commitButton. rewrite Hl.
    destruct (hasChanges _); [|done]. by destruct (length _ =? 0)%nat. }
  repeat (split; [done|]).
  intros statements Hc Hs. by rewrite handleCommit_begin_Some.
Qed.

Lemma handleCommit_begin_loading (statements : list string)
    (tv tv1 : TableView num) :
  handleCommit_begin statements tv = Some tv1 → loading tv1 = true.
Proof.
  unfold handleCommit_begin. destruct (_ || _); [done|]. by intros [= <-].
Qed.

(** C10: the edited statements follow the synthesized ones only when the
    number of statements changes.  With the same number the edited text
    stays, and a click on Commit hands that text, not the newly
    synthesized statements, to the backend. *)
Theorem syncStatements_only_on_length_change (initialStatements : list string)
    (pc : PendingChangesState) (tv : TableView num) :
  (length initialStatements ≠ length (editedStatements pc) →
   editedStatements (syncStatements initialStatements pc) = initialStatements)
  ∧ (length initialStatements = length (editedStatements pc) →
     syncStatements initialStatements pc = pc
     ∧ (initialStatements ≠ [] → connectionId tv ≠ "" →
        hasChanges (mutations tv) = true → loading tv = false →
        sentBatches
          (clickCommit initialStatements
             (syncStatements initialStatements pc) tv)
        = (sentBatches tv ++ [editedStatements pc])%list)).
Proof.
  unfold syncStatements. split.
  - intros Hne. by rewrite bool_decide_eq_true_2.
  - intros Heq. rewrite bool_decide_eq_false_2 by (by intros ?).
    split; [done|]. intros Hinit Hc Hch Hl.
    unfold clickCommit, commitButton. rewrite Hch, Hl.
    destruct initialStatements as [|s0 rest]; [done|]. simpl.
    rewrite handleCommit_begin_Some; [done|done|].
    destruct (editedStatements pc); [done|done].
Qed.
End coordinator_facts.

(** ** The properties at concrete inputs *)

(** A view of table [users] with one pending cell edit. *)
Definition example_view : TableView IntNum :=
  mkTableView "conn-1"
    (updateCell 2 "age" 2 (VNum (IFin 30)) (VNum (IFin 31)) ∅)
    false None None [] 0 [].

Definition example_batch : list string :=
  ["UPDATE users SET age=31 WHERE id = 3;"].

(** Counterexample to C8 as stated: the round trip of the empty string
    gives null, not the string. *)
Lemma editText_roundtrip_empty_string :
  fromEditText (toEditText (@VStr IntNum "")) (VStr "") = VNull
  ∧ bool_decide (fromEditText (toEditText (@VStr IntNum "")) (VStr "")
                 = VStr "") = false.
Proof. split; reflexivity. Qed.

(** The round trip at the number 42 and at NaN. *)
Lemma editText_roundtrip_witness :
  fromEditText (toEditText (VNum (IFin 42))) (VNum (IFin 42)) = VNum (IFin 42)
  ∧ num_isNaN (parseFloat (toEditText (VNum INaN))) = true.
Proof.
  destruct (@editText_roundtrip IntNum _) as (_ & _ & Hnum). split.
  - apply (Hnum (IFin 42)). reflexivity.
  - reflexivity.
Defined.

(** Scenario A: the age of row 2 goes from 30 to 31 and back to 30. *)
Lemma updateCell_coalesces_witness :
  hasChanges
    (updateCell 2 "age" 2 (VNum (IFin 30)) (VNum (IFin 30))
       (updateCellMany 2 2 [("age", VNum (IFin 30), VNum (IFin 31))] ∅))
  = false.
Proof.
  apply (updateCell_coalesces_to_empty 2 2
           [("age", VNum (IFin 30), VNum (IFin 31))]
           "age" (VNum (IFin 30)) (VNum (IFin 30)) ∅).
  - left. reflexivity.
  - reflexivity.
  - intros r' _. reflexivity.
Defined.

(** A changeset in which row 2 holds a pending change of its name. *)
Definition example_renamed : gmap nat (RowChange IntNum) :=
  updateCell 2 "name" 1 (VStr "Ann") (VStr "Anna") ∅.

(** Counterexample to C2 as stated: with the change of its name pending,
    the age of row 2 goes from 30 to 31 and back to 30, the last call
    bringing the recorded old value.  The row's entry stays, holding the
    change of the name, and the changeset has changes, with no other row
    in it. *)
Lemma updateCell_other_column_stays :
  recordedOldValue 2 2 (VNum (IFin 30))
    (updateCellMany 2 2 [("age", VNum (IFin 30), VNum (IFin 31))]
       example_renamed)
  = VNum (IFin 30)
  ∧ getRowState 2
      (updateCell 2 "age" 2 (VNum (IFin 30)) (VNum (IFin 30))
         (updateCellMany 2 2 [("age", VNum (IFin 30), VNum (IFin 31))]
            example_renamed))
    = Some (Update [mkCellChange 1 "name" (VStr "Ann") (VStr "Anna")])
  ∧ hasChanges
      (updateCell 2 "age" 2 (VNum (IFin 30)) (VNum (IFin 30))
         (updateCellMany 2 2 [("age", VNum (IFin 30), VNum (IFin 31))]
            example_renamed))
    = true
  ∧ dom example_renamed = ({[ 2 ]} : gset nat).
Proof. repeat split; vm_compute; reflexivity. Qed.

Lemma generateSQL_all_null_insert_witness :
  "INSERT INTO " +:+ dquote +:+ "users" +:+ dquote +:+
  " (" +:+ dquote +:+ "id" +:+ dquote +:+ ", " +:+ dquote +:+ "name" +:+
  dquote +:+ ") VALUES (NULL, NULL);"
  ∈ generateSQL [] (insertRow 0 [@VNull IntNum; VNull] ∅)
      "users" ["id"; "name"] (Some "id").
Proof.
  destruct (generateSQL_one_statement_per_entry
              [] (insertRow 0 [@VNull IntNum; VNull] ∅)
              "users" ["id"; "name"] (Some "id")) as (_ & _ & _ & _ & Hnull).
  apply (Hnull 0 [VNull; VNull]).
  - reflexivity.
  - repeat constructor.
Defined.


Lemma handleCommit_outcome_witness :
  mutations (handleCommit example_batch Resolved example_view) = ∅
  ∧ mutations (handleCommit example_batch (Rejected (ErrText "locked"))
                 example_view)
    = mutations example_view
  ∧ commitError (handleCommit example_batch (Rejected (ErrText "locked"))
                   example_view)
    = Some "locked"
  ∧ commitError
      (handleCommit example_batch
         (Rejected (ErrObject (Some "no such table") "{}")) example_view)
    = Some "no such table"
  ∧ mutations (handleCommit example_batch (Rejected ErrNullish) example_view)
    = mutations example_view
  ∧ commitError (handleCommit example_batch (Rejected ErrNullish) example_view)
    = None.
Proof.
  destruct (handleCommit_outcome example_batch example_view)
    as ((Hclear & _) & Hfail & Htext & Hmessage & _ & Hnull).
  - discriminate.
  - discriminate.
  - split; [exact Hclear|].
    destruct (Hfail (ErrText "locked")) as (Hsame & _).
    split; [exact Hsame|]. split; [exact (Htext "locked")|].
    split; [apply Hmessage; discriminate|].
    destruct (Hfail ErrNullish) as (Hsame' & _).
    split; [exact Hsame'|exact Hnull].
Defined.

(** The view right after a commit attempt began. *)
Definition example_committing : TableView IntNum :=
  default example_view (handleCommit_begin example_batch example_view).

Lemma clickCommit_while_committing_witness :
  loading example_committing = true
  ∧ clickCommit example_batch (PendingChanges_mount example_batch)
      example_committing
    = example_committing.
Proof.
  split; [reflexivity|].
  apply (clickCommit_while_committing example_batch
           (PendingChanges_mount example_batch) example_committing).
  reflexivity.
Defined.

(** Counterexample to C9 as stated: [handleCommit] does not look at a
    commit in flight.  Invoked on
    the view right after an attempt began, it hands the backend a second
    batch.  And the Commit button is enabled again with the first attempt
    still unanswered once a page load that ran in between has ended: an
    edit and a click then send a second batch. *)
Lemma handleCommit_without_guard :
  loading example_committing = true
  ∧ sentBatches <$> handleCommit_begin example_batch example_committing
    = Some [example_batch; example_batch]
  ∧ sentBatches
      (clickCommit ["UPDATE users SET age=40 WHERE id = 3;"]
         (PendingChanges_mount ["UPDATE users SET age=40 WHERE id = 3;"])
         (editCell 2 "age" 2 (VNum (IFin 30)) (VNum (IFin 40))
            (fetchData_settle
               (Some ("SELECT * FROM " +:+ quoteIdent "users" +:+
                      " LIMIT 100 OFFSET 0;"))
               (fetchData_begin example_committing))))
    = [example_batch; ["UPDATE users SET age=40 WHERE id = 3;"]].
Proof. split; [|split]; reflexivity. Qed.

(** The operator rewrote the only statement; the synthesized statement
    then changed, the count did not: the panel keeps, and the commit
    sends, the operator's text. *)
Lemma syncStatements_witness :
  sentBatches
    (clickCommit ["UPDATE users SET age=32 WHERE id = 3;"]
       (syncStatements ["UPDATE users SET age=32 WHERE id = 3;"]
          (handleStatementChange 0 "UPDATE users SET age=99 WHERE id = 3;"
             (PendingChanges_mount example_batch)))
       example_view)
  = [["UPDATE users SET age=99 WHERE id = 3;"]].
Proof.
  destruct (syncStatements_only_on_length_change
              ["UPDATE users SET age=32 WHERE id = 3;"]
              (handleStatementChange 0 "UPDATE users SET age=99 WHERE id = 3;"
                 (PendingChanges_mount example_batch))
              example_view) as (_ & Hsame).
  destruct (Hsame eq_refl) as (_ & Hsend).
  apply Hsend.
  - discriminate.
  - discriminate.
  - reflexivity.
  - reflexivity.
Defined.

(** * Further properties *)

Local Open Scope nat_scope.
Local Open Scope list_scope.

(** ** Paging, sorting and adding rows *)

Section paging_facts.
Import TabContentTable.


Lemma turnPage_pageSize (id : string) (d : PageDirection) (tab : Tab) :
  pageSize (turnPage id d tab) = pageSize tab.
Proof. unfold turnPage. by destruct (handlePageChange _ _ _). Qed.

Lemma orElse_zero (x : option Z) : orElse (Some (orElse x 0)) 0 = orElse x 0.
Proof. destruct x as [z|]; simpl; [|done]. by destruct (z =? 0)%Z eqn:Hz; simpl; rewrite ?Hz. Qed.

Lemma toNumber_safe (z : Z) : (Z.abs z ≤ safeBound)%Z → toNumber z = z.
Proof. unfold toNumber. by intros ->%Z.leb_le. Qed.

Lemma toNumber_nonpos (z : Z) : (z ≤ 0)%Z → (toNumber z ≤ 0)%Z.
Proof.
  intros Hz. unfold toNumber. destruct (Z.abs z <=? safeBound)%Z; [done|].
  set (ulp := (2 ^ (Z.log2 (Z.abs z) - 52))%Z).
  assert (0 ≤ ulp)%Z by (apply Z.pow_nonneg; lia).
  assert (0 ≤ Z.abs z / ulp)%Z by (apply Z_div_nonneg_nonneg; lia).
  assert (Z.sgn z ≤ 0)%Z by lia.
  repeat destruct (_ <? _)%Z; try destruct (Z.even _); nia.
Qed.

(** Past [safeBound] sums are rounded: a page of one row forward from
    offset 2^53 is no move at all, and a page of three rows forward from
    9007199254740996 lands four rows on. *)
Lemma handlePageChange_past_safeBound :
  handlePageChange "tab-1" (Some (mkTab (Some safeBound) (Some 1%Z) None)) next
  = None
  ∧ handlePageChange "tab-1"
      (Some (mkTab (Some 9007199254740996%Z) (Some 3%Z) None)) next
    = Some 9007199254741000%Z.
Proof. split; vm_compute; reflexivity. Qed.

Lemma turnPage_offset (id : string) (d : PageDirection) (tab : Tab) :
  id ≠ "" →
  effectiveOffset (turnPage id d tab)
  = match d with
    | next => toNumber (effectiveOffset tab + effectivePageSize tab)
    | prev => Z.max 0 (toNumber (effectiveOffset tab - effectivePageSize tab))
    end.
Proof.
  intros Hid. unfold turnPage, handlePageChange, effectiveOffset, effectivePageSize.
  destruct (String.eqb_spec id "") as [?|_]; [done|]. simpl.
  set (o := orElse (offset tab) 0). set (p := orElse (pageSize tab) 100).
  destruct d.
  - destruct (Z.eqb_spec (toNumber (o + p)) o) as [Heq|Hne]; simpl.
    + fold o. lia.
    + destruct (Z.eqb_spec (toNumber (o + p)) 0); lia.
  - destruct (Z.eqb_spec (Z.max 0 (toNumber (o - p))) o) as [Heq|Hne]; simpl.
    + fold o. lia.
    + destruct (Z.eqb_spec (Z.max 0 (toNumber (o - p))) 0); lia.
Qed.

(** Within [safeBound] a page turn adds or takes away exactly one page. *)
Lemma turnPage_offset_safe (id : string) (d : PageDirection) (tab : Tab) :
  id ≠ "" →
  (0 ≤ effectiveOffset tab)%Z →
  (effectiveOffset tab + Z.abs (effectivePageSize tab) ≤ safeBound)%Z →
  effectiveOffset (turnPage id d tab)
  = match d with
    | next => (effectiveOffset tab + effectivePageSize tab)%Z
    | prev => Z.max 0 (effectiveOffset tab - effectivePageSize tab)
    end.
Proof.
  intros Hid Ho Hbound. rewrite turnPage_offset by done.
  destruct d; rewrite toNumber_safe; lia.
Qed.

Lemma effectivePageSize_nonzero (tab : Tab) : effectivePageSize tab ≠ 0%Z.
Proof.
  unfold effectivePageSize, orElse. destruct (pageSize tab) as [z|]; [|done].
  by destruct (Z.eqb_spec z 0).
Qed.

(** X1: going to the previous page never hands [updateTab] a negative
    offset, and on the first page (offset 0 or missing, page size not
    negative) it hands it nothing at all, so no reload is started. *)
Theorem handlePageChange_prev_floor (id : string) (activeTab : option Tab) :
  (∀ newOffset : Z,
     handlePageChange id activeTab prev = Some newOffset → (0 ≤ newOffset)%Z)
  ∧ (∀ tab : Tab,
       activeTab = Some tab → effectiveOffset tab = 0%Z →
       (0 ≤ effectivePageSize tab)%Z →
       handlePageChange id activeTab prev = None).
Proof.
  unfold handlePageChange, effectiveOffset, effectivePageSize. split.
  - intros newOffset. destruct (String.eqb id ""); [done|].
    destruct activeTab as [tab|]; [|done]. simpl.
    destruct (_ =? _)%Z; [done|]. intros [= <-]. lia.
  - intros tab -> Ho Hp. destruct (String.eqb id ""); [done|]. simpl.
    rewrite Ho.
    pose proof (toNumber_nonpos (0 - orElse (pageSize tab) 100)).
    destruct (Z.eqb_spec
                (Z.max 0 (toNumber (0 - orElse (pageSize tab) 100))) 0);
      [done|lia].
Qed.

(** X2: from a non-negative offset, with offset and page size small
    enough for their sum to be exact (the offset plus the size of the page
    size is at most 2^53), a page forward and a page back lead to the
    offset one started from; a page back and a page forward do so exactly
    when a whole page lies before the offset. *)
Theorem turnPage_there_and_back (id : string) (tab : Tab) :
  id ≠ "" → (0 ≤ effectiveOffset tab)%Z →
  (effectiveOffset tab + Z.abs (effectivePageSize tab) ≤ safeBound)%Z →
  effectiveOffset (turnPage id prev (turnPage id next tab)) = effectiveOffset tab
  ∧ ((0 < effectivePageSize tab)%Z →
     (effectiveOffset (turnPage id next (turnPage id prev tab))
      = effectiveOffset tab
      ↔ (effectivePageSize tab ≤ effectiveOffset tab)%Z)).
Proof.
  intros Hid Ho Hbound.
  assert (∀ d, effectivePageSize (turnPage id d tab) = effectivePageSize tab)
    as Hsize.
  { intros d. unfold effectivePageSize. by rewrite turnPage_pageSize. }
  pose proof (turnPage_offset_safe id next tab Hid Ho Hbound) as Hnext.
  pose proof (turnPage_offset_safe id prev tab Hid Ho Hbound) as Hprev.
  rewrite (turnPage_offset id prev (turnPage id next tab)) by done.
  rewrite (turnPage_offset id next (turnPage id prev tab)) by done.
  rewrite !Hsize, Hnext, Hprev. split.
  - rewrite toNumber_safe; lia.
  - intros Hp. rewrite toNumber_safe; lia.
Qed.

(** X3: with a positive page size, any run of page turns from an offset
    that is a non-negative multiple of the page size ends on such an
    offset: pages stay aligned and the offset never goes below zero.  The
    offsets of the run are to be exact: the start plus one page for each
    turn is at most 2^53. *)
Theorem turnPage_keeps_alignment (id : string) (directions : list PageDirection)
    (tab : Tab) (k : Z) :
  id ≠ "" → (0 < effectivePageSize tab)%Z → (0 ≤ k)%Z →
  effectiveOffset tab = (k * effectivePageSize tab)%Z →
  (effectiveOffset tab + Z.of_nat (length directions) * effectivePageSize tab
   ≤ safeBound)%Z →
  ∃ k' : Z,
    (0 ≤ k')%Z
    ∧ effectiveOffset (foldl (λ t d, turnPage id d t) tab directions)
      = (k' * effectivePageSize tab)%Z
    ∧ effectivePageSize (foldl (λ t d, turnPage id d t) tab directions)
      = effectivePageSize tab.
Proof.
  intros Hid Hp. revert tab k Hp.
  induction directions as [|d directions IH]; intros tab k Hp Hk Ho Hbound;
    simpl.
  - eauto.
  - assert (effectivePageSize (turnPage id d tab) = effectivePageSize tab) as Hsize.
    { unfold effectivePageSize. by rewrite turnPage_pageSize. }
    assert (effectiveOffset (turnPage id d tab)
            = match d with
              | next => (effectiveOffset tab + effectivePageSize tab)%Z
              | prev => Z.max 0 (effectiveOffset tab - effectivePageSize tab)
              end) as Hstep.
    { apply turnPage_offset_safe; [done|nia|].
      rewrite length_cons, Nat2Z.inj_succ in Hbound. nia. }
    destruct (IH (turnPage id d tab)
                (match d with next => k + 1 | prev => Z.max 0 (k - 1) end)%Z)
      as (k' & Hk' & Ho' & Hp').
    + by rewrite Hsize.
    + destruct d; lia.
    + rewrite Hsize, Hstep, Ho. destruct d; nia.
    + rewrite Hsize, Hstep. rewrite length_cons, Nat2Z.inj_succ in Hbound.
      destruct d; nia.
    + exists k'. rewrite Hsize in Ho', Hp'. done.
Qed.


(** X4: clicks on one column header cycle through ascending, descending
    and cleared: the first click on a column the table is not sorted by
    sorts ascending, the second descending, the third clears the sort, and
    from any state three more clicks come back to where the first one
    led. *)
Theorem clickHeader_cycle (id : string) (col : string) (tab : Tab) :
  id ≠ "" →
  (sortConfig tab ≫= column ≠ Some col →
   sortConfig (clickHeader id col tab) = sortedBy col ASC
   ∧ sortConfig (clickHeader id col (clickHeader id col tab))
     = sortedBy col DESC
   ∧ sortConfig (clickHeader id col (clickHeader id col (clickHeader id col tab)))
     = sortCleared)
  ∧ clickHeader id col
      (clickHeader id col (clickHeader id col (clickHeader id col tab)))
    = clickHeader id col tab.
Proof.
  intros Hid. unfold clickHeader, handleSort, sortedBy, sortCleared.
  destruct (String.eqb_spec id "") as [?|_]; [done|].
  destruct tab as [o p [[[c|] []]|]]; simpl;
    repeat (case_bool_decide; simplify_eq/=); try done; split; try done;
    intros; simplify_eq.
Qed.
End paging_facts.

Section addRow_facts.
Context `{JsNumber num}.
Import TabContentTable.

Lemma null_row (cols : list string) :
  (λ _, @VNull num) <$> cols = replicate (length cols) VNull.
Proof. induction cols as [|c cols IH]; simpl; by f_equal. Qed.

Lemma handleAddRow_step (g : Grid) :
  tableColumns g ≠ [] →
  handleAddRow g
  = mkGrid (tableData g ++ [replicate (length (tableColumns g)) VNull])
      (tableColumns g) (S (newRowCounter g))
      (<[length (tableData g) :=
           Insert (replicate (length (tableColumns g)) (@VNull num))]>
         (changes g)).
Proof.
  intros Hcols. unfold handleAddRow, insertRow. rewrite null_row.
  by destruct (tableColumns g).
Qed.

(** X5: adding rows keeps the table data and the tracker in step.  After
    [n] additions to a table with columns, the data ends with [n] rows of
    one null per column, each of these rows has an insert entry holding
    the same nulls at its own index, and every other entry of the tracker
    is as it was.  Without columns nothing is added. *)
Theorem handleAddRow_in_step (n : nat) (g : Grid) :
  (tableColumns g ≠ [] →
   tableData (Nat.iter n handleAddRow g)
   = (tableData g
      ++ replicate n (replicate (length (tableColumns g)) VNull))%list
   ∧ ∀ r : nat,
       changes (Nat.iter n handleAddRow g) !! r
       = if decide (length (tableData g) ≤ r < length (tableData g) + n)
         then Some (Insert (replicate (length (tableColumns g)) (@VNull num)))
         else changes g !! r)
  ∧ (tableColumns g = [] → Nat.iter n handleAddRow g = g).
Proof.
  split.
  - intros Hcols.
    assert (tableColumns (Nat.iter n handleAddRow g) = tableColumns g
            ∧ tableData (Nat.iter n handleAddRow g)
              = (tableData g
                 ++ replicate n (replicate (length (tableColumns g)) VNull))%list
            ∧ ∀ r : nat,
                changes (Nat.iter n handleAddRow g) !! r
                = if decide (length (tableData g) ≤ r
                             < length (tableData g) + n)
                  then Some (Insert
                               (replicate (length (tableColumns g))
                                  (@VNull num)))
                  else changes g !! r) as (_ & ? & ?); [|done].
    induction n as [|n (IHc & IHd & IHr)].
    + simpl. split; [done|]. split; [by rewrite app_nil_r|].
      intros r. rewrite decide_False by lia. done.
    + simpl Nat.iter. rewrite handleAddRow_step by (by rewrite IHc).
      simpl. rewrite IHc, IHd. split; [done|]. split.
      * rewrite <- app_assoc. f_equal.
        change [replicate (length (tableColumns g)) (@VNull num)]
          with (replicate 1 (replicate (length (tableColumns g)) (@VNull num))).
        rewrite <- replicate_add. by rewrite Nat.add_1_r.
      * intros r. rewrite length_app, length_replicate.
        destruct (decide (length (tableData g) + n = r)) as [<-|Hne].
        -- rewrite lookup_insert_eq, decide_True by lia. done.
        -- rewrite lookup_insert_ne, IHr by done.
           repeat case_decide; try done; lia.
  - intros Hcols. induction n as [|n IH]; simpl; [done|].
    rewrite IH. unfold handleAddRow. by rewrite Hcols.
Qed.
End addRow_facts.

(** ** The row context menu *)

Lemma doubleQuotes_doubleEach (s : string) : doubleQuotes s = doubleEach "'" s.
Proof. induction s as [|c s IH]; simpl; [done|]. by rewrite IH. Qed.

Lemma doubleEach_inj (q : ascii) (s t : string) :
  doubleEach q s = doubleEach q t → s = t.
Proof.
  revert t. induction s as [|c s IH]; intros [|d t]; simpl.
  - done.
  - by destruct (Ascii.eqb d q).
  - by destruct (Ascii.eqb c q).
  - destruct (Ascii.eqb_spec c q) as [->|Hc], (Ascii.eqb_spec d q) as [->|Hd].
    + intros [= Heq]. f_equal. by apply IH.
    + intros [= <- Heq]. done.
    + intros [= -> Heq]. done.
    + intros [= -> Heq]. f_equal. by apply IH.
Qed.

Lemma append_inj_r (p s t : string) : p +:+ s = p +:+ t → s = t.
Proof. induction p as [|c p IH]; simpl; [done|]. intros [= Heq]. by apply IH. Qed.

Lemma append_inj_l (s t : string) (c : ascii) :
  s +:+ String c "" = t +:+ String c "" → s = t.
Proof.
  revert t. induction s as [|a s IH]; intros [|b t]; simpl; try done.
  - intros [= -> Heq]. by destruct t.
  - intros [= -> Heq]. by destruct s.
  - intros [= -> Heq]. f_equal. by apply IH.
Qed.

Section menu_facts.
Context `{JsNumber num}.

(** X6: the SQL literal of a text tells the text: two texts with the same
    literal are the same text, and no text has the literal of null, so the
    text NULL and a null cell are told apart. *)
Theorem toSqlLiteral_text_inj (s : string) (v : CellValue num) :
  (v = VNull ∨ ∃ t : string, v = VStr t) →
  toSqlLiteral (VStr s) = toSqlLiteral v → v = VStr s.
Proof.
  intros [->|[t ->]]; simpl; [done|].
  intros Heq. f_equal. apply append_inj_r, append_inj_l in Heq.
  rewrite !doubleQuotes_doubleEach in Heq. symmetry. by apply doubleEach_inj in Heq.
Qed.

(** X7: the CSV field of a text tells the text: two texts with the same
    field are the same text, and no text has the field of null. *)
Theorem csvValue_text_inj (s : string) (v : CellValue num) :
  (v = VNull ∨ ∃ t : string, v = VStr t) →
  RowContextMenu.csvValue (VStr s) = RowContextMenu.csvValue v → v = VStr s.
Proof.
  intros [->|[t ->]]; simpl; [done|].
  intros Heq. f_equal. apply append_inj_r, append_inj_l in Heq.
  symmetry. by apply doubleEach_inj in Heq.
Qed.
End menu_facts.

(** ** Value codec, continued *)

Section codec_more_facts.
Context `{JsNumber num}.

Lemma or_zero_not_NaN (n : num) : num_isNaN (or_zero n) = false.
Proof.
  rewrite or_zero_NaN_only. destruct (num_isNaN n) eqn:Hn; [|done].
  apply num_zero_not_NaN.
Qed.

(** X8: an edit keeps the type of the cell: what [fromEditText] returns is
    null or of the type of the original value, a text when the original
    was null; and a number it returns is never NaN. *)
Theorem fromEditText_keeps_type (text : string) (originalValue : CellValue num) :
  (fromEditText text originalValue = VNull
   ∨ kindOf (fromEditText text originalValue)
     = match kindOf originalValue with
       | KNull => KString
       | kind => kind
       end)
  ∧ (∀ n : num, fromEditText text originalValue = VNum n → num_isNaN n = false).
Proof.
  unfold fromEditText. destruct (_ || _).
  - split; [by left|done].
  - destruct originalValue as [|s|o|b]; (split; [by right|]); try done.
    intros n [= <-]. apply or_zero_not_NaN.
Qed.

(** X9: committing is stable.  When the editor is opened again on the
    value an edit produced and committed without a change, against the
    same original value, the value stays; so null, the booleans and every
    value an edit can produce survive the round trip through the editor. *)
Theorem fromEditText_stable (text : string) (originalValue : CellValue num) :
  fromEditText (toEditText (fromEditText text originalValue)) originalValue
  = fromEditText text originalValue
  ∧ (∀ b : bool, fromEditText (toEditText (@VBool num b)) (VBool b) = VBool b).
Proof.
  split; [|by intros []].
  unfold fromEditText at 2 3. rewrite editNull_decide.
  case_bool_decide as Hnull; [done|].
  destruct originalValue as [|s|o|b].
  - simpl. unfold fromEditText. rewrite editNull_decide.
    by rewrite bool_decide_eq_false_2.
  - simpl. unfold fromEditText. rewrite editNull_decide.
    by rewrite bool_decide_eq_false_2.
  - simpl. rewrite fromEditText_number_text.
    rewrite parseFloat_toString by apply or_zero_not_NaN.
    f_equal. rewrite (or_zero_NaN_only (or_zero _)).
    by rewrite or_zero_not_NaN.
  - by destruct (String.eqb (toLowerCase text) "true").
Qed.
End codec_more_facts.

(** ** The data grid *)

Lemma arraySet_lookup_eq {A : Type} (i : nat) (v : A) (l : list (option A)) :
  arraySet i v l !! i = Some (Some v).
Proof.
  unfold arraySet. case_decide as Hi.
  - by apply list_lookup_insert_eq.
  - rewrite lookup_app_r by lia. rewrite lookup_app_r by (rewrite length_replicate; lia).
    rewrite length_replicate. by replace (i - length l - (i - length l)) with 0 by lia.
Qed.

Lemma arraySet_lookup_ne {A : Type} (i j : nat) (v : A) (l : list (option A)) :
  i ≠ j → mjoin (arraySet i v l !! j) = mjoin (l !! j).
Proof.
  intros Hne. unfold arraySet. case_decide as Hi.
  - by rewrite list_lookup_insert_ne.
  - destruct (decide (j < length l)) as [Hj|Hj].
    + by rewrite lookup_app_l.
    + rewrite (lookup_ge_None_2 l j) by lia. rewrite lookup_app_r by lia.
      destruct (decide (j < i)) as [Hji|Hji].
      * rewrite lookup_app_l by (rewrite length_replicate; lia).
        rewrite lookup_replicate_2 by lia. done.
      * rewrite lookup_app_r by (rewrite length_replicate; lia).
        rewrite length_replicate.
        destruct (j - length l - (i - length l)) as [|k] eqn:Hk; [lia|done].
Qed.

Lemma setIndices_notin (name : string) (columnNames : list string) (idx : nat)
    (map : gmap string nat) :
  name ∉ columnNames →
  DataTable.setIndices idx columnNames map !! name = map !! name.
Proof.
  revert idx map. induction columnNames as [|col rest IH]; intros idx map Hnotin;
    simpl; [done|].
  apply not_elem_of_cons in Hnotin as [Hne Hrest].
  rewrite IH by done. by rewrite lookup_insert_ne.
Qed.

Lemma setIndices_last (name : string) (columnNames : list string) (idx i : nat)
    (map : gmap string nat) :
  columnNames !! i = Some name →
  (∀ j, i < j → columnNames !! j ≠ Some name) →
  DataTable.setIndices idx columnNames map !! name = Some (idx + i).
Proof.
  revert idx i map.
  induction columnNames as [|col rest IH]; intros idx i map Hi Hlast; [done|].
  destruct i as [|i]; simpl in *.
  - injection Hi as ->. rewrite setIndices_notin.
    + rewrite lookup_insert_eq. f_equal. lia.
    + intros Hin. apply list_elem_of_lookup in Hin as [j Hj].
      apply (Hlast (S j)); [lia|done].
  - rewrite (IH (S idx) i); [f_equal; lia|done|].
    intros j Hj. apply (Hlast (S j)). lia.
Qed.

Lemma setIndices_elem_of (name : string) (columnNames : list string) (idx : nat)
    (map : gmap string nat) :
  name ∈ columnNames →
  ∃ i : nat,
    columnNames !! i = Some name
    ∧ DataTable.setIndices idx columnNames map !! name = Some (idx + i).
Proof.
  revert idx map. induction columnNames as [|col rest IH]; intros idx map Hin.
  - by apply elem_of_nil in Hin.
  - simpl. destruct (decide (name ∈ rest)) as [Hrest|Hrest].
    + destruct (IH (S idx) (<[col:=idx]> map) Hrest) as (i & Hi & Hlook).
      exists (S i). split; [done|]. rewrite Hlook. f_equal. lia.
    + apply elem_of_cons in Hin as [->|?]; [|done].
      exists 0. split; [done|].
      rewrite setIndices_notin, lookup_insert_eq by done. f_equal. lia.
Qed.

(** X10: the index a column of the grid reads its cells at is the last
    position of its name among the columns: with pairwise distinct names
    it is the position of the column, and every visible column reads at a
    position that bears its name; a name that is not a column reads at
    index 0. *)
Theorem originalIndex_last_position (columnNames : list string) (name : string) :
  (∀ i : nat,
     columnNames !! i = Some name →
     (∀ j : nat, i < j → columnNames !! j ≠ Some name) →
     DataTable.originalIndex columnNames name = i)
  ∧ (∀ i : nat,
       NoDup columnNames → columnNames !! i = Some name →
       DataTable.originalIndex columnNames name = i)
  ∧ (∀ hiddenColumns : list string,
       name ∈ DataTable.visibleColumnNames columnNames hiddenColumns →
       (name ∉ hiddenColumns)
       ∧ columnNames !! DataTable.originalIndex columnNames name = Some name)
  ∧ (name ∉ columnNames → DataTable.originalIndex columnNames name = 0).
Proof.
  unfold DataTable.originalIndex, DataTable.columnIndexMap.
  split; [|split; [|split]].
  - intros i Hi Hlast. by rewrite (setIndices_last name columnNames 0 i).
  - intros i Hnd Hi. rewrite (setIndices_last name columnNames 0 i); [done|done|].
    intros j Hj Hname. pose proof (NoDup_lookup _ _ _ _ Hnd Hi Hname). lia.
  - intros hiddenColumns Hvis. unfold DataTable.visibleColumnNames in Hvis.
    apply list_elem_of_filter in Hvis as [Hnot Hin]. split; [done|].
    destruct (setIndices_elem_of name columnNames 0 ∅ Hin) as (i & Hi & ->).
    done.
  - intros Hnotin. by rewrite setIndices_notin.
Qed.

Section editing_facts.
Context `{JsNumber num}.
Import DataTable.

Lemma cellOf_writeLocal_eq (row col : nat) (value : CellValue num)
    (grid : list (list (option (CellValue num)))) :
  row < length grid → cellOf (writeLocal row col value grid) row col = Some value.
Proof.
  intros Hrow. unfold cellOf, writeLocal.
  destruct (lookup_lt_is_Some_2 grid row Hrow) as [cells Hcells].
  rewrite Hcells, list_lookup_insert_eq by done. simpl.
  by rewrite arraySet_lookup_eq.
Qed.

Lemma cellOf_writeLocal_ne (row col r c : nat) (value : CellValue num)
    (grid : list (list (option (CellValue num)))) :
  (r, c) ≠ (row, col) →
  cellOf (writeLocal row col value grid) r c = cellOf grid r c.
Proof.
  intros Hne. unfold cellOf, writeLocal.
  destruct (grid !! row) as [cells|] eqn:Hcells; [|done].
  destruct (decide (r = row)) as [->|Hr].
  - rewrite list_lookup_insert_eq by (by eapply lookup_lt_Some).
    rewrite Hcells. simpl. apply arraySet_lookup_ne. congruence.
  - by rewrite list_lookup_insert_ne.
Qed.

Lemma length_writeLocal (row col : nat) (value : CellValue num)
    (grid : list (list (option (CellValue num)))) :
  length (writeLocal row col value grid) = length grid.
Proof.
  unfold writeLocal. destruct (grid !! row); [|done]. apply length_insert.
Qed.

(** X11: committing the edit of a cell closes the editor, makes one call
    to the tracker, for that cell, with the value the data has there as
    the old value and the parsed text as the new one, and writes the new
    value into the local data at that cell and nowhere else; the call is
    made also when the local data has no such row. *)
Theorem commitEdit_one_cell (columnNames : list string)
    (data : list (list (CellValue num))) (st : Editing) (row col : nat) :
  editingCell st = Some (row, col) →
  editingCell (commitEdit columnNames data st) = None
  ∧ editValue (commitEdit columnNames data st) = ""
  ∧ calls (commitEdit columnNames data st)
    = (calls st
       ++ [mkCall row (columnNames !! col) col
             (data !! row ≫= λ cells, cells !! col)
             (fromEditText (editValue st)
                (default VNull (data !! row ≫= λ cells, cells !! col)))])%list
  ∧ length (localData (commitEdit columnNames data st)) = length (localData st)
  ∧ (∀ r c : nat,
       (r, c) ≠ (row, col) →
       cellOf (localData (commitEdit columnNames data st)) r c
       = cellOf (localData st) r c)
  ∧ (row < length (localData st) →
     cellOf (localData (commitEdit columnNames data st)) row col
     = Some (fromEditText (editValue st)
               (default VNull (data !! row ≫= λ cells, cells !! col)))).
Proof.
  intros Hcell. unfold commitEdit. rewrite Hcell. simpl.
  repeat split; try done.
  - apply length_writeLocal.
  - intros r c Hne. by apply cellOf_writeLocal_ne.
  - intros Hrow. by apply cellOf_writeLocal_eq.
Qed.

Lemma handleKeyDown_Tab_step (columnNames : list string)
    (data : list (list (CellValue num))) (st : Editing) (row col : nat) :
  editingCell st = Some (row, col) →
  editingCell (handleKeyDown columnNames data Tab st)
  = (if decide (S col < length columnNames) then Some (row, S col) else None)
  ∧ (λ call, (rowIndex call, columnIndex call))
      <$> calls (handleKeyDown columnNames data Tab st)
    = (((λ call, (rowIndex call, columnIndex call)) <$> calls st)
       ++ [(row, col)])%list.
Proof.
  intros Hcell. unfold handleKeyDown. rewrite Hcell.
  assert ((λ call, (rowIndex call, columnIndex call))
            <$> calls (commitEdit columnNames data st)
          = (((λ call, (rowIndex call, columnIndex call)) <$> calls st)
             ++ [(row, col)])%list) as Hcalls.
  { unfold commitEdit. rewrite Hcell. simpl. by rewrite fmap_app. }
  case_decide; simpl; (split; [|done]).
  - done.
  - unfold commitEdit. by rewrite Hcell.
Qed.

(** X12: the Tab key walks the editor along the row.  From the editor
    open at a column, [k] presses of Tab, as long as they do not run past
    the last column, commit the [k] cells from that column on, one call
    each in column order, and leave the editor open at the [k]-th column
    after it, or closed when that is past the last column. *)
Theorem handleKeyDown_Tab_walk (columnNames : list string)
    (data : list (list (CellValue num))) (k : nat) (st : Editing)
    (row col : nat) :
  editingCell st = Some (row, col) →
  (col < length columnNames)%nat → (col + k ≤ length columnNames)%nat →
  editingCell (Nat.iter k (handleKeyDown columnNames data Tab) st)
  = (if decide (col + k < length columnNames) then Some (row, col + k)
     else None)
  ∧ (λ call, (rowIndex call, columnIndex call))
      <$> calls (Nat.iter k (handleKeyDown columnNames data Tab) st)
    = (((λ call, (rowIndex call, columnIndex call)) <$> calls st)
       ++ ((λ c, (row, c)) <$> seq col k))%list.
Proof.
  intros Hcell Hcol. induction k as [|k IH]; intros Hk.
  - simpl. rewrite Nat.add_0_r, app_nil_r.
    split; [|done]. by rewrite Hcell, decide_True.
  - destruct IH as [IHcell IHcalls]; [lia|].
    rewrite decide_True in IHcell by lia.
    rewrite Nat.iter_succ.
    destruct (handleKeyDown_Tab_step columnNames data
                (Nat.iter k (handleKeyDown columnNames data Tab) st)
                row (col + k) IHcell) as [Hc Hcalls].
    split.
    + rewrite Hc. replace (S (col + k)) with (col + S k) by lia. done.
    + rewrite Hcalls, IHcalls, <- app_assoc. f_equal.
      rewrite seq_S, fmap_app. done.
Qed.
End editing_facts.

Section query_facts.
Import TabContentQuery.
Context {Row : Type} (trim : string → string).
Implicit Types st : @State Row.

Lemma settle_generation (g : nat) (sql : string) (m : nat) (reply : @Reply Row) st :
  generation (settle g sql m reply st) = generation st.
Proof.
  unfold settle. case_decide; [done|].
  destruct reply as [[result|]|text]; try done. by destruct (columns result).
Qed.

Lemma step_generation st (e : @Event Row) :
  generation st ≤ generation (step trim st e).
Proof.
  destruct e as [|value|g sql m reply]; simpl.
  - unfold runQuery. destruct (String.eqb _ _); [done|].
    destruct (loading st); simpl; lia.
  - done.
  - by rewrite settle_generation.
Qed.

Lemma steps_generation st (events : list (@Event Row)) :
  generation st ≤ generation (foldl (step trim) st events).
Proof.
  revert st. induction events as [|e events IH]; intros st; simpl; [done|].
  etrans; [apply (step_generation st e)|apply IH].
Qed.

(** X13: a stopped query never comes back.  When Run is clicked while a
    query is running and the editor holds a query that is not blank, the
    running query is stopped and nothing is sent; whatever happens
    afterwards, the reply to the stopped query changes nothing when it
    arrives.  With a blank editor the click does nothing at all: the query
    keeps running, and its reply is taken and ends the loading. *)
Theorem stopped_query_is_ignored st (events : list (@Event Row))
    (sql : string) (measured : nat) (reply : @Reply Row) :
  loading st = true →
  (trim (query st) ≠ "" →
   runQuery trim st = stopQuery st
   ∧ sent (runQuery trim st) = sent st
   ∧ settle (generation st) sql measured reply
       (foldl (step trim) (runQuery trim st) events)
     = foldl (step trim) (runQuery trim st) events)
  ∧ (trim (query st) = "" →
     runQuery trim st = st
     ∧ loading (settle (generation st) sql measured reply (runQuery trim st))
       = false).
Proof.
  intros Hl. split.
  - intros Hq.
    assert (runQuery trim st = stopQuery st) as Hstop.
    { unfold runQuery. rewrite Hl.
      by destruct (String.eqb_spec (trim (query st)) ""). }
    rewrite Hstop. split; [done|]. split; [done|].
    unfold settle. rewrite decide_True; [done|].
    pose proof (steps_generation (stopQuery st) events) as Hge.
    simpl in Hge. lia.
  - intros Hq.
    assert (runQuery trim st = st) as ->.
    { unfold runQuery. by rewrite Hq. }
    split; [done|]. unfold settle. rewrite decide_False by (by intros ?).
    destruct reply as [[result|]|text]; try done.
    by destruct (columns result).
Qed.

(** X14: replies to queries of different generations can arrive in either
    order: the state they leave is the same. *)
Theorem settle_commute (g1 g2 : nat) (sql1 sql2 : string) (m1 m2 : nat)
    (reply1 reply2 : @Reply Row) st :
  g1 ≠ g2 →
  settle g1 sql1 m1 reply1 (settle g2 sql2 m2 reply2 st)
  = settle g2 sql2 m2 reply2 (settle g1 sql1 m1 reply1 st).
Proof.
  intros Hne.
  assert (∀ g sql m (reply : @Reply Row) s,
            g ≠ generation s → settle g sql m reply s = s) as Hstale.
  { intros g sql m reply s Hg. unfold settle. by rewrite decide_True. }
  destruct (decide (g1 = generation st)) as [H1|H1].
  - rewrite (Hstale g2 sql2 m2 reply2 st) by congruence.
    rewrite (Hstale g2); [done|]. rewrite settle_generation. congruence.
  - rewrite (Hstale g1 sql1 m1 reply1 st) by done.
    rewrite (Hstale g1); [done|]. by rewrite settle_generation.
Qed.
End query_facts.

Section hook_facts.
Import useQueryResult.
Context {Row : Type}.
Implicit Types st : @State Row.

Lemma loadPage_later_rows (p : nat) (queryId : string) (reply : @Reply Row) st :
  rows (loadPage (S p) queryId reply st)
  = rows st ++ broughtRows reply.
Proof.
  unfold loadPage, runQuery_settle, broughtRows.
  destruct reply as [result|text]; simpl; [|by rewrite app_nil_r].
  destruct (Result.columns result); simpl; [done|by rewrite app_nil_r].
Qed.

Lemma loadPages_later_rows (p : nat) (replies : list (string * @Reply Row)) st :
  rows (loadPages (S p) replies st)
  = rows st ++ concat (broughtRows <$> replies.*2).
Proof.
  revert p st. induction replies as [|[queryId reply] replies IH]; intros p st;
    simpl; [by rewrite app_nil_r|].
  by rewrite IH, loadPage_later_rows, app_assoc.
Qed.

(** X15: pages add up.  When page 0 and the pages after it are loaded one
    after the other, the rows of the hook are the rows the replies
    brought, in order, whatever rows it held before; a reply that failed
    or came without columns brings no rows and takes none away from the
    later pages. *)
Theorem loadPages_rows (queryId : string) (reply : @Reply Row)
    (replies : list (string * @Reply Row)) st :
  rows (loadPages 0 ((queryId, reply) :: replies) st)
  = broughtRows reply ++ concat (broughtRows <$> replies.*2).
Proof.
  simpl. rewrite loadPages_later_rows. f_equal.
  unfold loadPage, runQuery_settle, broughtRows.
  destruct reply as [result|text]; simpl; [|done].
  by destruct (Result.columns result).
Qed.

End hook_facts.

(** ** The pending-changes panel *)

(** X17: an edit of a statement in the panel replaces that statement and
    no other, keeps the number of statements, and so survives the next
    renders: as long as the synthesized statements keep their number, the
    effect leaves the edited text alone. *)
Theorem handleStatementChange_survives (initialStatements : list string)
    (index : nat) (value : string) (pc : PendingChangesState) :
  index < length (editedStatements pc) →
  length initialStatements = length (editedStatements pc) →
  editedStatements (handleStatementChange index value pc) !! index = Some value
  ∧ (∀ j : nat,
       j ≠ index →
       editedStatements (handleStatementChange index value pc) !! j
       = editedStatements pc !! j)
  ∧ syncStatements initialStatements (handleStatementChange index value pc)
    = handleStatementChange index value pc.
Proof.
  intros Hi Hlen. unfold handleStatementChange, syncStatements. simpl.
  split; [by apply list_lookup_insert_eq|]. split.
  - intros j Hj. by apply list_lookup_insert_ne.
  - rewrite bool_decide_eq_false_2; [done|]. rewrite length_insert. lia.
Qed.

(** ** The further properties at concrete inputs *)

Definition example_tab : TabContentTable.Tab :=
  TabContentTable.mkTab (Some 200%Z) (Some 50%Z) None.

Lemma turnPage_there_and_back_witness :
  TabContentTable.effectiveOffset
    (TabContentTable.turnPage "tab-1" TabContentTable.prev
       (TabContentTable.turnPage "tab-1" TabContentTable.next example_tab))
  = TabContentTable.effectiveOffset example_tab.
Proof.
  destruct (turnPage_there_and_back "tab-1" example_tab) as [Hback _].
  - discriminate.
  - unfold TabContentTable.effectiveOffset. simpl. lia.
  - vm_compute. discriminate.
  - exact Hback.
Defined.

Lemma turnPage_keeps_alignment_witness :
  ∃ k' : Z,
    (0 ≤ k')%Z
    ∧ TabContentTable.effectiveOffset
        (foldl (λ t d, TabContentTable.turnPage "tab-1" d t) example_tab
           [TabContentTable.next; TabContentTable.prev; TabContentTable.prev;
            TabContentTable.prev; TabContentTable.prev; TabContentTable.prev;
            TabContentTable.prev])
      = (k' * TabContentTable.effectivePageSize example_tab)%Z
    ∧ TabContentTable.effectivePageSize
        (foldl (λ t d, TabContentTable.turnPage "tab-1" d t) example_tab
           [TabContentTable.next; TabContentTable.prev; TabContentTable.prev;
            TabContentTable.prev; TabContentTable.prev; TabContentTable.prev;
            TabContentTable.prev])
      = TabContentTable.effectivePageSize example_tab.
Proof.
  apply (turnPage_keeps_alignment "tab-1" _ example_tab 4%Z).
  - discriminate.
  - unfold TabContentTable.effectivePageSize. simpl. lia.
  - lia.
  - reflexivity.
  - vm_compute. discriminate.
Defined.

Lemma clickHeader_cycle_witness :
  TabContentTable.sortConfig
    (TabContentTable.clickHeader "tab-1" "name"
       (TabContentTable.clickHeader "tab-1" "name"
          (TabContentTable.clickHeader "tab-1" "name" example_tab)))
  = TabContentTable.sortCleared.
Proof.
  destruct (clickHeader_cycle "tab-1" "name" example_tab) as [Hfirst _].
  - discriminate.
  - destruct Hfirst as (_ & _ & Hcleared).
    + discriminate.
    + exact Hcleared.
Defined.

Lemma toSqlLiteral_text_inj_witness :
  @VStr IntNum "O'Brien" = VStr "O'Brien".
Proof.
  apply (toSqlLiteral_text_inj "O'Brien" (@VStr IntNum "O'Brien")).
  - right. by exists "O'Brien".
  - reflexivity.
Defined.

Lemma csvValue_text_inj_witness :
  @VStr IntNum "NULL" = VStr "NULL".
Proof.
  apply (csvValue_text_inj "NULL" (@VStr IntNum "NULL")).
  - right. by exists "NULL".
  - reflexivity.
Defined.

(** The grid of a table with columns id, name, age and one row, its editor
    open at the name. *)
Definition example_editing : @DataTable.Editing IntNum :=
  DataTable.mkEditing (Some (0, 1)) "Bobby"
    [[Some (VNum (IFin 5)); Some (VStr "Bob"); Some (VNum (IFin 40))]] [].

Definition example_data : list (list (CellValue IntNum)) :=
  [[VNum (IFin 5); VStr "Bob"; VNum (IFin 40)]].

Lemma commitEdit_one_cell_witness :
  DataTable.calls
    (DataTable.commitEdit ["id"; "name"; "age"] example_data example_editing)
  = [DataTable.mkCall 0 (Some "name") 1 (Some (VStr "Bob")) (VStr "Bobby")]
  ∧ DataTable.cellOf
      (DataTable.localData
         (DataTable.commitEdit ["id"; "name"; "age"] example_data
            example_editing)) 0 1
    = Some (VStr "Bobby").
Proof.
  destruct (commitEdit_one_cell ["id"; "name"; "age"] example_data
              example_editing 0 1) as (_ & _ & Hcalls & _ & _ & Hcell).
  - reflexivity.
  - split; [exact Hcalls|]. apply Hcell. simpl. lia.
Defined.

Lemma handleKeyDown_Tab_walk_witness :
  DataTable.editingCell
    (Nat.iter 2
       (DataTable.handleKeyDown ["id"; "name"; "age"] example_data
          DataTable.Tab) example_editing)
  = None
  ∧ (λ call, (DataTable.rowIndex call, DataTable.columnIndex call))
      <$> DataTable.calls
            (Nat.iter 2
               (DataTable.handleKeyDown ["id"; "name"; "age"] example_data
                  DataTable.Tab) example_editing)
    = [(0, 1); (0, 2)].
Proof.
  apply (handleKeyDown_Tab_walk ["id"; "name"; "age"] example_data 2
           example_editing 0 1).
  - reflexivity.
  - simpl. lia.
  - simpl. lia.
Defined.

(** [trim] on the ASCII white space. *)
Definition example_trim (s : string) : string :=
  String.rev (trimStart (String.rev (trimStart s))).

(** A query tab with a query running. *)
Definition example_running : @TabContentQuery.State nat :=
  TabContentQuery.mkState "SELECT 1" None true None None 1 true []
    ["SELECT 1"].

Lemma stopped_query_is_ignored_witness :
  TabContentQuery.settle 1 "SELECT 1" 12
    (TabContentQuery.Returned
       (Some (TabContentQuery.mkQueryResult (Some ["n"]) [1] 3)))
    (foldl (TabContentQuery.step example_trim)
       (TabContentQuery.runQuery example_trim example_running)
       [TabContentQuery.Click])
  = foldl (TabContentQuery.step example_trim)
      (TabContentQuery.runQuery example_trim example_running)
      [TabContentQuery.Click].
Proof.
  destruct (stopped_query_is_ignored example_trim example_running
              [TabContentQuery.Click] "SELECT 1" 12
              (TabContentQuery.Returned
                 (Some (TabContentQuery.mkQueryResult (Some ["n"]) [1] 3))))
    as [Hstopped _].
  - reflexivity.
  - apply Hstopped. discriminate.
Defined.

Lemma settle_commute_witness :
  TabContentQuery.settle 1 "SELECT 1" 12 (TabContentQuery.Threw "timeout")
    (TabContentQuery.settle 0 "SELECT 0" 7 (TabContentQuery.Returned None)
       example_running)
  = TabContentQuery.settle 0 "SELECT 0" 7 (TabContentQuery.Returned None)
      (TabContentQuery.settle 1 "SELECT 1" 12 (TabContentQuery.Threw "timeout")
         example_running).
Proof. apply settle_commute. discriminate. Defined.

Lemma handleStatementChange_survives_witness :
  syncStatements ["UPDATE users SET age=32 WHERE id = 3;"]
    (handleStatementChange 0 "UPDATE users SET age=99 WHERE id = 3;"
       (PendingChanges_mount example_batch))
  = handleStatementChange 0 "UPDATE users SET age=99 WHERE id = 3;"
      (PendingChanges_mount example_batch).
Proof.
  apply (handleStatementChange_survives
           ["UPDATE users SET age=32 WHERE id = 3;"] 0
           "UPDATE users SET age=99 WHERE id = 3;"
           (PendingChanges_mount example_batch)).
  - simpl. lia.
  - reflexivity.
Defined.
